(** * mail-api-back: the IMAP client of [internal/smtpClient/imap.go]

    A shallow embedding of the Go package [smtpclient] (file [imap.go]):
    the session guard ([Connect], [Disconnect]), the paginated range
    fetches ([GetInbox], [GetFolderMessages]) and the single-message fetch
    with its MIME body walk ([GetEmailByID]).

    The protocol library (go-imap) and the multi-part decoder (go-message)
    are external collaborators.  They are embedded as interfaces
    ([imap.Client], [mail.Decoder]); the package's code is written against
    them, and every theorem holds for every implementation of them. *)

From Stdlib Require Import ZArith List String Ascii Bool Lia.
From Stdlib Require Import DecimalString.
From Stdlib Require DecimalPos.
Import ListNotations.

Local Open Scope string_scope.
Local Open Scope Z_scope.

Set Implicit Arguments.

(** ** Go values *)

(** Go's [error] values as the package builds and receives them:
    [errors.New] / [fmt.Errorf] without a verb that wraps, [fmt.Errorf]
    with [%w] (the context string in front of the wrapped error), and
    [strconv]'s [*NumError]. *)
Inductive error : Type :=
| errorString (s : string)
| wrapError (context : string) (err : error)
| NumError (Func Num : string) (Err : error).

(** A Go pair [(value, error)] in which exactly one side is meaningful. *)
Inductive result (A : Type) : Type :=
| Ok (a : A)
| Err (e : error).
Arguments Ok {A} a.
Arguments Err {A} e.

(** How a call ends: it returns, or it panics with a run-time error and
    returns nothing. *)
Inductive outcome (A : Type) : Type :=
| Returns (a : A)
| Panics (v : string).
Arguments Returns {A} a.
Arguments Panics {A} v.

(** The run-time error of a field access through a nil pointer. *)
Definition nil_dereference : string :=
  "runtime error: invalid memory address or nil pointer dereference".

Definition is_Err {A} (r : result A) : bool :=
  match r with Ok _ => false | Err _ => true end.

(** The width of Go's [int] depends on the target. *)
Inductive arch : Type := arch32 | arch64.

Definition intSize (a : arch) : Z :=
  match a with arch32 => 32 | arch64 => 64 end.

(** Two's complement wrap-around of a mathematical integer to [int]. *)
Definition int (a : arch) (z : Z) : Z :=
  (z + 2 ^ (intSize a - 1)) mod 2 ^ intSize a - 2 ^ (intSize a - 1).

(** The values an [int] variable can hold. *)
Definition is_int (a : arch) (z : Z) : Prop :=
  - 2 ^ (intSize a - 1) <= z < 2 ^ (intSize a - 1).

(** The conversion [uint32(x)], and [uint32] arithmetic. *)
Definition uint32 (z : Z) : Z := z mod 2 ^ 32.

Definition is_uint32 (z : Z) : Prop := 0 <= z < 2 ^ 32.

Definition sub32 (x y : Z) : Z := uint32 (x - y).
Definition add32 (x y : Z) : Z := uint32 (x + y).

(** [fmt.Sprintf("%d", z)] *)
Definition fmt_d (z : Z) : string := NilZero.string_of_int (Z.to_int z).

(** *** strconv.ParseUint(s, 10, 32) *)

Definition ErrSyntax : error := errorString "invalid syntax".
Definition ErrRange : error := errorString "value out of range".

Definition digit_of (c : ascii) : option Z :=
  let n := Z.of_nat (nat_of_ascii c) in
  if (48 <=? n) && (n <=? 57) then Some (n - 48) else None.

(** The digit loop of [ParseUint] for base 10: the first byte that is not
    a decimal digit is a syntax error, the first digit that takes the value
    above [maxVal] is a range error. *)
Fixpoint parse_digits (maxVal : Z) (s : string) (n : Z) : result Z :=
  match s with
  | EmptyString => Ok n
  | String c rest =>
      match digit_of c with
      | None => Err ErrSyntax
      | Some d =>
          let n1 := n * 10 + d in
          if maxVal <? n1 then Err ErrRange else parse_digits maxVal rest n1
      end
  end.

Definition ParseUint10 (s : string) (bitSize : Z) : result Z :=
  match s with
  | EmptyString => Err (NumError "ParseUint" s ErrSyntax)
  | _ =>
      match parse_digits (2 ^ bitSize - 1) s 0 with
      | Ok n => Ok n
      | Err e => Err (NumError "ParseUint" s e)
      end
  end.

(** [[]byte] and the conversion [string(b)]. *)
Definition bytes : Type := list Byte.byte.
Definition string_of_bytes (b : bytes) : string := string_of_list_byte b.

(** [time.Time], as seconds since the epoch. *)
Definition Time : Type := Z.

(** [crypto/tls.Config], the one field the package sets. *)
Record tlsConfig : Type := { InsecureSkipVerify : bool }.

(** ** The protocol library (github.com/emersion/go-imap) *)
Module imap.

Record Address : Type :=
  { PersonalName : string; MailboxName : string; HostName : string }.

(** The method [Address()] of an [*Address]. *)
Definition Address_ (addr : Address) : string :=
  MailboxName addr ++ "@" ++ HostName addr.

Record Envelope : Type :=
  { Date : Time; Subject : string; From : list Address; To : list Address }.

(** A fetched record.  [Envelope_] is the pointer [msg.Envelope], [None]
    when the response carried no envelope; [Body] lists the body literals
    in the order in which [range msg.Body] visits them. *)
Record Message (Literal : Type) : Type :=
  { SeqNum : Z;
    Envelope_ : option Envelope;
    Flags : list string;
    Size : Z;
    Body : list Literal }.

Record MailboxStatus : Type := { Messages : Z }.

Record MailboxInfo : Type := { Name : string }.

Definition FetchItem : Type := string.
Definition FetchEnvelope : FetchItem := "ENVELOPE".
Definition FetchFlags : FetchItem := "FLAGS".
Definition FetchBodyStructure : FetchItem := "BODYSTRUCTURE".
Definition FetchRFC822Size : FetchItem := "RFC822.SIZE".

(** A sequence set, as the calls that built it: [new(imap.SeqSet)],
    [AddRange(start, stop)], [AddNum(n)]. *)
Inductive SeqSet : Type :=
| new_SeqSet
| AddRange (s : SeqSet) (start stop : Z)
| AddNum (s : SeqSet) (n : Z).

(** The session capability.  [Conn] is the handle [*client.Client];
    everything mutable behind it (the connection, the server) is in
    [World].  [Fetch] delivers the records it sends on the channel before
    closing it, and the error it returns. *)
Class Client (World Conn Literal : Type) : Type :=
  { Dial : string -> World -> result Conn * World;
    DialTLS : string -> tlsConfig -> World -> result Conn * World;
    StartTLS : Conn -> tlsConfig -> World -> option error * World;
    Login : Conn -> string -> string -> World -> option error * World;
    Logout : Conn -> World -> option error * World;
    List : Conn -> string -> string -> World ->
           list MailboxInfo * option error * World;
    Select : Conn -> string -> bool -> World -> result MailboxStatus * World;
    Fetch : Conn -> SeqSet -> list FetchItem -> World ->
            list (Message Literal) * option error * World }.

End imap.

(** ** The multi-part decoder (github.com/emersion/go-message/mail) *)
Module mail.

(** What the package reads from an [*AttachmentHeader]: the first result
    of [Filename()] and of [ContentType()]. *)
Record AttachmentHeader : Type :=
  { Filename : string; ContentType : string }.

(** The dynamic type of [Part.Header], as the type switch sees it. *)
Inductive PartHeader : Type :=
| InlineHeader
| AttachmentHeader_ (h : AttachmentHeader)
| otherHeader.

(** A part: its header and the bytes [ioutil.ReadAll(p.Body)] returns. *)
Record Part : Type := { Header : PartHeader; ReadAll : bytes }.

(** The three outcomes of [NextPart] that the caller tells apart:
    [err == io.EOF], another error, a part. *)
Inductive next : Type :=
| EOF
| Failed (err : error)
| Next (p : Part).

Class Decoder (Literal Reader : Type) : Type :=
  { CreateReader : Literal -> result Reader;
    NextPart : Reader -> next * Reader }.

End mail.

(** ** Package smtpclient *)

(** Modelled from the spec: the declarations of [Message] and [Attachment]
    are in another file of the package; the fields are those of the spec's
    data model and of the composite literals in [imap.go]. *)
Record Attachment : Type :=
  { Filename : string; Content : bytes; MimeType : string }.

Record Message : Type :=
  { ID : string;
    Subject : string;
    Date : Time;
    Flags : list string;
    From : string;
    To : list string;
    Size : Z;
    Body : string;
    Attachments : list Attachment }.

Definition set_From (m : Message) (v : string) : Message :=
  {| ID := ID m; Subject := Subject m; Date := Date m; Flags := Flags m;
     From := v; To := To m; Size := Size m; Body := Body m;
     Attachments := Attachments m |}.

Definition set_To (m : Message) (v : list string) : Message :=
  {| ID := ID m; Subject := Subject m; Date := Date m; Flags := Flags m;
     From := From m; To := v; Size := Size m; Body := Body m;
     Attachments := Attachments m |}.

Definition set_Body (m : Message) (v : string) : Message :=
  {| ID := ID m; Subject := Subject m; Date := Date m; Flags := Flags m;
     From := From m; To := To m; Size := Size m; Body := v;
     Attachments := Attachments m |}.

Definition set_Attachments (m : Message) (v : list Attachment) : Message :=
  {| ID := ID m; Subject := Subject m; Date := Date m; Flags := Flags m;
     From := From m; To := To m; Size := Size m; Body := Body m;
     Attachments := v |}.

Record IMAPConfig : Type :=
  { Host : string; Port : Z; Username : string; Password : string }.

Record GetInboxResult : Type :=
  { inbox_Messages : list Message; inbox_TotalCount : Z }.

Record GetFolderResult : Type :=
  { folder_Messages : list Message; folder_TotalCount : Z }.

(** The errors the package makes, under the names of the spec's taxonomy. *)
Definition NotConnected : error := errorString "not connected to IMAP server".
Definition InvalidID (cause : error) : error := wrapError "invalid email ID" cause.
Definition NotFound (id : string) : error :=
  errorString ("message with ID " ++ id ++ " not found").
Definition FetchError (cause : error) : error :=
  wrapError "failed to fetch messages" cause.

(** [IMAPClient]: the configuration and the session reference
    ([None] is Go's [nil]).  The mutex serialises the methods; each method
    is embedded as one uninterrupted run. *)
Record IMAPClient (Conn : Type) : Type :=
  { config : IMAPConfig; client : option Conn }.

(** The calls a method makes on the protocol library, with their
    arguments. *)
Inductive Call (Conn : Type) : Type :=
| call_Dial (addr : string)
| call_DialTLS (addr : string) (cfg : tlsConfig)
| call_StartTLS (cl : Conn) (cfg : tlsConfig)
| call_Login (cl : Conn) (username password : string)
| call_Logout (cl : Conn)
| call_List (cl : Conn) (ref name : string)
| call_Select (cl : Conn) (name : string) (readOnly : bool)
| call_Fetch (cl : Conn) (seqSet : imap.SeqSet) (items : list imap.FetchItem).
Arguments call_Dial {Conn} addr.
Arguments call_DialTLS {Conn} addr cfg.

(** What a method can read and change: the receiver [*c], the world behind
    the session handles, the log of library calls made so far (oldest
    first) and the lines written by [fmt.Println]. *)
Record state (World Conn : Type) : Type :=
  { self : IMAPClient Conn;
    server : World;
    calls : list (Call Conn);
    stdout : list string }.

Section Package.

Variable a : arch.
Context {World Conn Literal Reader : Type}.
Context {IC : imap.Client World Conn Literal}.
Context {MD : mail.Decoder Literal Reader}.

Definition M (A : Type) : Type := state World Conn -> A * state World Conn.

Definition ret {A} (x : A) : M A := fun st => (x, st).

Definition bind {A B} (m : M A) (k : A -> M B) : M B :=
  fun st => let (x, st') := m st in k x st'.

Notation "x <- m ;; k" := (bind m (fun x => k))
  (at level 61, m at next level, right associativity).
Notation "m ;;; k" := (bind m (fun _ => k))
  (at level 61, right associativity).

Definition get_self : M (IMAPClient Conn) := fun st => (self st, st).

(** The assignment [c.client = v]. *)
Definition set_client (v : option Conn) : M unit := fun st =>
  (tt, {| self := {| config := config (self st); client := v |};
          server := server st; calls := calls st; stdout := stdout st |}).

(** A library call: logged, then answered by the library. *)
Definition call {A} (k : Call Conn) (f : World -> A * World) : M A := fun st =>
  let (x, w) := f (server st) in
  (x, {| self := self st; server := w;
         calls := calls st ++ [k]; stdout := stdout st |}).

Definition Println (line : string) : M unit := fun st =>
  (tt, {| self := self st; server := server st;
          calls := calls st; stdout := stdout st ++ [line] |}).

Definition client_Dial (addr : string) : M (result Conn) :=
  call (call_Dial addr) (imap.Dial addr).
Definition client_DialTLS (addr : string) (cfg : tlsConfig) : M (result Conn) :=
  call (call_DialTLS addr cfg) (imap.DialTLS addr cfg).
Definition client_StartTLS (cl : Conn) (cfg : tlsConfig) : M (option error) :=
  call (call_StartTLS cl cfg) (imap.StartTLS cl cfg).
Definition client_Login (cl : Conn) (u p : string) : M (option error) :=
  call (call_Login cl u p) (imap.Login cl u p).
Definition client_Logout (cl : Conn) : M (option error) :=
  call (call_Logout cl) (imap.Logout cl).
Definition client_List (cl : Conn) (ref name : string)
  : M (list imap.MailboxInfo * option error) :=
  call (call_List cl ref name) (imap.List cl ref name).
Definition client_Select (cl : Conn) (name : string) (readOnly : bool)
  : M (result imap.MailboxStatus) :=
  call (call_Select cl name readOnly) (imap.Select cl name readOnly).
Definition client_Fetch (cl : Conn) (seqSet : imap.SeqSet)
           (items : list imap.FetchItem)
  : M (list (imap.Message Literal) * option error) :=
  call (call_Fetch cl seqSet items) (imap.Fetch cl seqSet items).

(** [NewIMAPClient] *)
Definition NewIMAPClient (cfg : IMAPConfig) : IMAPClient Conn :=
  {| config := cfg; client := None |}.

(** [Connect], lines 39-78. *)
Definition Connect : M (option error) :=
  c <- get_self ;;
  let addr := Host (config c) ++ ":" ++ fmt_d (Port (config c)) in
  dialled <-
    (if Port (config c) =? 1143 then
       r <- client_Dial addr ;;
       match r with
       | Err err => ret (Err (wrapError "failed to connect to IMAP server" err))
       | Ok imapClient =>
           let tlsConfig := {| InsecureSkipVerify := true |} in
           e <- client_StartTLS imapClient tlsConfig ;;
           match e with
           | Some err => ret (Err (wrapError "failed to start TLS" err))
           | None => ret (Ok imapClient)
           end
       end
     else
       let tlsConfig := {| InsecureSkipVerify := true |} in
       r <- client_DialTLS addr tlsConfig ;;
       match r with
       | Err err => ret (Err (wrapError "failed to connect to IMAP server" err))
       | Ok imapClient => ret (Ok imapClient)
       end) ;;
  match dialled with
  | Err e => ret (Some e)
  | Ok imapClient =>
      e <- client_Login imapClient (Username (config c)) (Password (config c)) ;;
      match e with
      | Some err =>
          client_Logout imapClient ;;;
          ret (Some (wrapError "failed to login to IMAP server" err))
      | None =>
          set_client (Some imapClient) ;;;
          ret None
      end
  end.

(** [Disconnect], lines 81-95. *)
Definition Disconnect : M (option error) :=
  c <- get_self ;;
  match client c with
  | None => ret None
  | Some cl =>
      e <- client_Logout cl ;;
      match e with
      | Some err => ret (Some (wrapError "failed to logout from IMAP server" err))
      | None =>
          set_client None ;;;
          ret None
      end
  end.

(** [GetFolders], lines 98-123. *)
Definition GetFolders : M (result (list string)) :=
  c <- get_self ;;
  match client c with
  | None => ret (Err NotConnected)
  | Some cl =>
      r <- client_List cl "" "*" ;;
      let (mailboxes, done) := r in
      let folderNames :=
        fold_left (fun names m => (names ++ [imap.Name m])%list) mailboxes [] in
      match done with
      | Some err => ret (Err (wrapError "failed to list mailboxes" err))
      | None => ret (Ok folderNames)
      end
  end.

(** The body of the record loop of [GetInbox], lines 186-201: the
    message built from one record.  The composite literal reads
    [msg.Envelope.Subject] through the pointer [msg.Envelope] without a
    test: a record without envelope makes it panic. *)
Definition GetInbox_message (msg : imap.Message Literal) : outcome Message :=
  match imap.Envelope_ msg with
  | None => Panics nil_dereference
  | Some envelope =>
      let message :=
        {| ID := fmt_d (imap.SeqNum msg);
           Subject := imap.Subject envelope;
           Date := imap.Date envelope;
           Flags := imap.Flags msg;
           From := ""; To := []; Size := 0; Body := ""; Attachments := [] |} in
      let message :=
        match imap.From envelope with
        | addr :: _ => set_From message (imap.Address_ addr)
        | [] => message
        end in
      Returns
        (fold_left (fun message addr =>
                      set_To message (To message ++ [imap.Address_ addr])%list)
                   (imap.To envelope) message)
  end.

(** The record loop [for msg := range messages] of [GetInbox], lines
    185-202: the messages are appended to [result] in the order of
    delivery; a panic ends the loop and the call. *)
Fixpoint GetInbox_records (messages : list (imap.Message Literal))
         (result : list Message) : outcome (list Message) :=
  match messages with
  | [] => Returns result
  | msg :: rest =>
      match GetInbox_message msg with
      | Panics v => Panics v
      | Returns message => GetInbox_records rest (result ++ [message])
      end
  end.

(** [GetInbox], lines 132-212.  When the record loop panics the call
    returns nothing; the state is the one the loop was entered with. *)
Definition GetInbox (page pageSize : Z)
  : M (outcome (result GetInboxResult)) :=
  c <- get_self ;;
  match client c with
  | None => ret (Returns (Err NotConnected))
  | Some cl =>
      r <- client_Select cl "INBOX" false ;;
      match r with
      | Err err => ret (Returns (Err (wrapError "failed to select inbox" err)))
      | Ok mbox =>
          let totalCount := imap.Messages mbox in
          if totalCount =? 0 then
            ret (Returns (Ok {| inbox_Messages := []; inbox_TotalCount := 0 |}))
          else
            let offset := int a (int a (page - 1) * pageSize) in
            if totalCount <=? uint32 offset then
              ret (Returns (Ok {| inbox_Messages := [];
                                  inbox_TotalCount := totalCount |}))
            else
              let from := sub32 totalCount (uint32 offset) in
              let to :=
                if uint32 pageSize <? from
                then add32 (sub32 from (uint32 pageSize)) 1
                else 1 in
              let seqSet := imap.AddRange imap.new_SeqSet to from in
              let items := [imap.FetchEnvelope; imap.FetchFlags] in
              f <- client_Fetch cl seqSet items ;;
              let (messages, done) := f in
              Println "Fetching inbox messages" ;;;
              match GetInbox_records messages [] with
              | Panics v => ret (Panics v)
              | Returns result =>
                  match done with
                  | Some err =>
                      ret (Returns (Err (wrapError "failed to fetch messages" err)))
                  | None =>
                      ret (Returns (Ok {| inbox_Messages := result;
                                          inbox_TotalCount := totalCount |}))
                  end
              end
      end
  end.

(** The body of the record loop of [GetFolderMessages], lines 279-294: the
    message built from one record.  The composite literal reads
    [msg.Envelope.Subject] through the pointer [msg.Envelope] without a
    test: a record without envelope makes it panic. *)
Definition GetFolderMessages_message (msg : imap.Message Literal) : outcome Message :=
  match imap.Envelope_ msg with
  | None => Panics nil_dereference
  | Some envelope =>
      let message :=
        {| ID := fmt_d (imap.SeqNum msg);
           Subject := imap.Subject envelope;
           Date := imap.Date envelope;
           Flags := imap.Flags msg;
           From := ""; To := []; Size := 0; Body := ""; Attachments := [] |} in
      let message :=
        match imap.From envelope with
        | addr :: _ => set_From message (imap.Address_ addr)
        | [] => message
        end in
      Returns
        (fold_left (fun message addr =>
                      set_To message (To message ++ [imap.Address_ addr])%list)
                   (imap.To envelope) message)
  end.

(** The record loop [for msg := range messages] of [GetFolderMessages], lines
    278-295: the messages are appended to [result] in the order of
    delivery; a panic ends the loop and the call. *)
Fixpoint GetFolderMessages_records (messages : list (imap.Message Literal))
         (result : list Message) : outcome (list Message) :=
  match messages with
  | [] => Returns result
  | msg :: rest =>
      match GetFolderMessages_message msg with
      | Panics v => Panics v
      | Returns message => GetFolderMessages_records rest (result ++ [message])
      end
  end.

(** [GetFolderMessages], lines 221-305.  When the record loop panics the call
    returns nothing; the state is the one the loop was entered with. *)
Definition GetFolderMessages (folder : string) (page pageSize : Z)
  : M (outcome (result GetFolderResult)) :=
  c <- get_self ;;
  match client c with
  | None => ret (Returns (Err NotConnected))
  | Some cl =>
      r <- client_Select cl folder false ;;
      match r with
      | Err err => ret (Returns (Err (wrapError "failed to select folder" err)))
      | Ok mbox =>
          let totalCount := imap.Messages mbox in
          if totalCount =? 0 then
            ret (Returns (Ok {| folder_Messages := []; folder_TotalCount := 0 |}))
          else
            let offset := int a (int a (page - 1) * pageSize) in
            if totalCount <=? uint32 offset then
              ret (Returns (Ok {| folder_Messages := [];
                                  folder_TotalCount := totalCount |}))
            else
              let from := sub32 totalCount (uint32 offset) in
              let to :=
                if uint32 pageSize <? from
                then add32 (sub32 from (uint32 pageSize)) 1
                else 1 in
              let seqSet := imap.AddRange imap.new_SeqSet to from in
              let items := [imap.FetchEnvelope; imap.FetchFlags] in
              f <- client_Fetch cl seqSet items ;;
              let (messages, done) := f in
              Println ("Fetching messages from folder: " ++ folder) ;;;
              match GetFolderMessages_records messages [] with
              | Panics v => ret (Panics v)
              | Returns result =>
                  match done with
                  | Some err =>
                      ret (Returns (Err (wrapError "failed to fetch messages" err)))
                  | None =>
                      ret (Returns (Ok {| folder_Messages := result;
                                          folder_TotalCount := totalCount |}))
                  end
              end
      end
  end.

(** The effect of one part on the message: the type switch of
    lines 375-389. *)
Definition GetEmailByID_part (message : Message) (p : mail.Part) : Message :=
  match mail.Header p with
  | mail.InlineHeader =>
      let b := mail.ReadAll p in
      set_Body message (string_of_bytes b)
  | mail.AttachmentHeader_ h =>
      let filename := mail.Filename h in
      let b := mail.ReadAll p in
      let contentType := mail.ContentType h in
      set_Attachments message
        (Attachments message ++
           [{| Filename := filename; Content := b; MimeType := contentType |}])%list
  | mail.otherHeader => message
  end.

(** The part loop [for { p, err := mr.NextPart() ... }], lines 366-390.
    The loop has no bound of its own: [fuel] bounds the number of calls of
    [NextPart], and [None] says that the loop is still running when the
    fuel is used up. *)
Fixpoint GetEmailByID_parts (fuel : nat) (mr : Reader) (message : Message)
  : option Message :=
  match fuel with
  | O => None
  | S fuel' =>
      let (r, mr') := mail.NextPart mr in
      match r with
      | mail.EOF => Some message
      | mail.Failed _ => GetEmailByID_parts fuel' mr' message
      | mail.Next p => GetEmailByID_parts fuel' mr' (GetEmailByID_part message p)
      end
  end.

(** The loop [for _, literal := range msg.Body], lines 360-391. *)
Fixpoint GetEmailByID_literals (fuel : nat) (literals : list Literal)
         (message : Message) : option Message :=
  match literals with
  | [] => Some message
  | literal :: rest =>
      match mail.CreateReader literal with
      | Err _ => GetEmailByID_literals fuel rest message
      | Ok mr =>
          match GetEmailByID_parts fuel mr message with
          | None => None
          | Some message' => GetEmailByID_literals fuel rest message'
          end
      end
  end.

(** The body of the record loop of [GetEmailByID], lines 344-391.  As in
    the range fetches, the composite literal reads through [msg.Envelope]
    without a test and panics on a record without envelope, before any
    body literal is looked at. *)
Definition GetEmailByID_message (fuel : nat) (msg : imap.Message Literal)
  : option (outcome Message) :=
  match imap.Envelope_ msg with
  | None => Some (Panics nil_dereference)
  | Some envelope =>
      let message :=
        {| ID := fmt_d (imap.SeqNum msg);
           Subject := imap.Subject envelope;
           Date := imap.Date envelope;
           Flags := imap.Flags msg;
           From := ""; To := []; Size := imap.Size msg; Body := "";
           Attachments := [] |} in
      let message :=
        match imap.From envelope with
        | addr :: _ => set_From message (imap.Address_ addr)
        | [] => message
        end in
      let message :=
        fold_left (fun message addr =>
                     set_To message (To message ++ [imap.Address_ addr])%list)
                  (imap.To envelope) message in
      option_map Returns (GetEmailByID_literals fuel (imap.Body msg) message)
  end.

(** The record loop [for msg := range messages], lines 343-392: every
    record replaces [message]; a panic ends the loop and the call. *)
Fixpoint GetEmailByID_records (fuel : nat) (messages : list (imap.Message Literal))
         (message : option Message) : option (outcome (option Message)) :=
  match messages with
  | [] => Some (Returns message)
  | msg :: rest =>
      match GetEmailByID_message fuel msg with
      | None => None
      | Some (Panics v) => Some (Panics v)
      | Some (Returns message') => GetEmailByID_records fuel rest (Some message')
      end
  end.

(** [GetEmailByID], lines 308-403.  [None] is a run whose part loop is
    still running after [fuel] calls of [NextPart]; when the record loop
    panics the call returns nothing, and the state is the one the loop was
    entered with. *)
Definition GetEmailByID (fuel : nat) (id folder : string)
  : state World Conn -> option (outcome (result Message) * state World Conn) :=
  fun st =>
  let c := self st in
  match client c with
  | None => Some (Returns (Err NotConnected), st)
  | Some cl =>
      match ParseUint10 id 32 with
      | Err err => Some (Returns (Err (InvalidID err)), st)
      | Ok seqNum =>
          let folder := if (folder =? "")%string then "INBOX" else folder in
          let (_, st) :=
            Println ("Selecting folder for email ID " ++ id ++ " : " ++ folder) st in
          let (r, st) := client_Select cl folder false st in
          match r with
          | Err err =>
              Some (Returns
                      (Err (wrapError ("failed to select folder " ++ folder) err)),
                    st)
          | Ok _ =>
              let seqSet := imap.AddNum imap.new_SeqSet (uint32 seqNum) in
              let items := [imap.FetchEnvelope; imap.FetchFlags;
                            imap.FetchBodyStructure; imap.FetchRFC822Size;
                            "BODY[]"] in
              let (f, st) := client_Fetch cl seqSet items st in
              let (messages, done) := f in
              match GetEmailByID_records fuel messages None with
              | None => None
              | Some (Panics v) => Some (Panics v, st)
              | Some (Returns message) =>
                  match done with
                  | Some err =>
                      Some (Returns (Err (wrapError "failed to fetch message" err)),
                            st)
                  | None =>
                      match message with
                      | None => Some (Returns (Err (NotFound id)), st)
                      | Some message => Some (Returns (Ok message), st)
                      end
                  end
              end
          end
      end
  end.

End Package.

Arguments M World Conn A : clear implicits.

(** ** Vocabulary of the statements *)

(** The local [offset] of lines 154 and 247, the Go computation
    [(page - 1) * pageSize] on [int]. *)
Definition page_offset (a : arch) (page pageSize : Z) : Z :=
  int a (int a (page - 1) * pageSize).

(** The locals [from] and [to] of lines 163-169 and 256-262. *)
Definition page_from (a : arch) (totalCount page pageSize : Z) : Z :=
  sub32 totalCount (uint32 (page_offset a page pageSize)).

Definition page_to (a : arch) (totalCount page pageSize : Z) : Z :=
  let from := page_from a totalCount page pageSize in
  if uint32 pageSize <? from then add32 (sub32 from (uint32 pageSize)) 1 else 1.

(** The state after a successful selection of [folder] that leaves the
    world as [w']. *)
Definition selected {World Conn} (st : state World Conn) (cl : Conn)
           (folder : string) (w' : World) : state World Conn :=
  {| self := self st; server := w';
     calls := calls st ++ [call_Select cl folder false];
     stdout := stdout st |}.

(** The state after the fetch of a page: the call is logged, the world is
    [w''] and [line] is printed. *)
Definition fetched_page {World Conn} (st : state World Conn) (cl : Conn)
           (seqSet : imap.SeqSet) (w'' : World) (line : string)
  : state World Conn :=
  {| self := self st; server := w'';
     calls := calls st ++
              [call_Fetch cl seqSet [imap.FetchEnvelope; imap.FetchFlags]];
     stdout := stdout st ++ [line] |}.

(** The TLS configurations handed to the library in a list of calls. *)
Fixpoint tls_configs {Conn} (l : list (Call Conn)) : list tlsConfig :=
  match l with
  | [] => []
  | call_DialTLS _ cfg :: rest => cfg :: tls_configs rest
  | call_StartTLS _ cfg :: rest => cfg :: tls_configs rest
  | _ :: rest => tls_configs rest
  end.

(** The reader delivers the outcomes [evs], none of them the end, and then
    reports the end. *)
Fixpoint delivers {Literal Reader} {MD : mail.Decoder Literal Reader}
         (mr : Reader) (evs : list mail.next) : Prop :=
  match evs with
  | [] => fst (mail.NextPart mr) = mail.EOF
  | ev :: rest =>
      ev <> mail.EOF /\ fst (mail.NextPart mr) = ev /\
      delivers (snd (mail.NextPart mr)) rest
  end.

(** The contents of the inline parts among the outcomes, in order. *)
Fixpoint inline_contents (evs : list mail.next) : list string :=
  match evs with
  | [] => []
  | mail.Next p :: rest =>
      match mail.Header p with
      | mail.InlineHeader => string_of_bytes (mail.ReadAll p) :: inline_contents rest
      | _ => inline_contents rest
      end
  | _ :: rest => inline_contents rest
  end.

(** The attachment parts among the outcomes, in order. *)
Fixpoint attachment_parts (evs : list mail.next) : list Attachment :=
  match evs with
  | [] => []
  | mail.Next p :: rest =>
      match mail.Header p with
      | mail.AttachmentHeader_ h =>
          {| Filename := mail.Filename h; Content := mail.ReadAll p;
             MimeType := mail.ContentType h |} :: attachment_parts rest
      | _ => attachment_parts rest
      end
  | _ :: rest => attachment_parts rest
  end.

(** Two page calls end alike: both return an error, or both return pages
    with the same messages and the same total, or both panic. *)
Definition same_page (r1 : outcome (result GetInboxResult))
           (r2 : outcome (result GetFolderResult)) : Prop :=
  match r1, r2 with
  | Returns (Ok p1), Returns (Ok p2) =>
      inbox_Messages p1 = folder_Messages p2 /\
      inbox_TotalCount p1 = folder_TotalCount p2
  | Returns (Err _), Returns (Err _) => True
  | Panics _, Panics _ => True
  | _, _ => False
  end.

(** Every record of the list carries an envelope. *)
Definition enveloped {Literal} (messages : list (imap.Message Literal)) : Prop :=
  Forall (fun msg => imap.Envelope_ msg <> None) messages.

(** The message that a range fetch builds from a record with the envelope
    [envelope]: lines 186-199 and 279-292 read field by field. *)
Definition listed {Literal} (msg : imap.Message Literal)
           (envelope : imap.Envelope) : Message :=
  {| ID := fmt_d (imap.SeqNum msg);
     Subject := imap.Subject envelope;
     Date := imap.Date envelope;
     Flags := imap.Flags msg;
     From := match imap.From envelope with
             | addr :: _ => imap.MailboxName addr ++ "@" ++ imap.HostName addr
             | [] => ""
             end;
     To := map (fun addr => imap.MailboxName addr ++ "@" ++ imap.HostName addr)
               (imap.To envelope);
     Size := 0; Body := ""; Attachments := [] |}.

(** [m'] is [m] with possibly another body and further attachments at the
    end: the envelope fields and the size are the same. *)
Definition keeps_envelope (m m' : Message) : Prop :=
  ID m' = ID m /\ Subject m' = Subject m /\ Date m' = Date m /\
  Flags m' = Flags m /\ From m' = From m /\ To m' = To m /\
  Size m' = Size m /\
  exists extra, Attachments m' = (Attachments m ++ extra)%list.

(** ** A scripted server and decoder

    One implementation of the two interfaces, with every answer fixed in
    advance: the instances at which the statements below are evaluated. *)
Module Script.

(** A reader: the outcomes still to deliver, and the outcome of every
    call after them. *)
Record reader : Type := { pending : list mail.next; after : mail.next }.

(** A literal: [None] cannot be opened. *)
Definition literal : Type := option reader.

Definition next_part (mr : reader) : mail.next * reader :=
  match pending mr with
  | ev :: rest => (ev, {| pending := rest; after := after mr |})
  | [] => (after mr, mr)
  end.

#[global] Instance decoder : mail.Decoder literal reader :=
  {| mail.CreateReader := fun l =>
       match l with
       | Some mr => Ok mr
       | None => Err (errorString "mail: malformed message")
       end;
     mail.NextPart := next_part |}.

(** The server's answers; the handle of every session is [1]. *)
Record world : Type :=
  { login : option error;
    logout : option error;
    mailbox : result imap.MailboxStatus;
    records : list (imap.Message literal);
    fetched : option error }.

#[global] Instance library : imap.Client world Z literal :=
  {| imap.Dial := fun _ w => (Ok 1, w);
     imap.DialTLS := fun _ _ w => (Ok 1, w);
     imap.StartTLS := fun _ _ w => (None, w);
     imap.Login := fun _ _ _ w => (login w, w);
     imap.Logout := fun _ w => (logout w, w);
     imap.List := fun _ _ _ w => ([], None, w);
     imap.Select := fun _ _ _ w => (mailbox w, w);
     imap.Fetch := fun _ _ _ w => (records w, fetched w, w) |}.

Definition cfg (port : Z) : IMAPConfig :=
  {| Host := "mail.example.org"; Port := port;
     Username := "user"; Password := "secret" |}.

(** A server with [n] messages in every mailbox that answers a fetch with
    [msgs] and [err]. *)
Definition serving (n : Z) (msgs : list (imap.Message literal))
           (err : option error) : world :=
  {| login := None; logout := None;
     mailbox := Ok {| imap.Messages := n |};
     records := msgs; fetched := err |}.

(** A client of [w] that holds a session, and one that holds none. *)
Definition connected (w : world) : state world Z :=
  {| self := {| config := cfg 993; client := Some 1 |};
     server := w; calls := []; stdout := [] |}.

Definition fresh (port : Z) (w : world) : state world Z :=
  {| self := NewIMAPClient (cfg port);
     server := w; calls := []; stdout := [] |}.

Definition envelope : imap.Envelope :=
  {| imap.Date := 1700000000; imap.Subject := "hello";
     imap.From := [{| imap.PersonalName := "A"; imap.MailboxName := "alice";
                      imap.HostName := "example.org" |}];
     imap.To := [{| imap.PersonalName := "B"; imap.MailboxName := "bob";
                    imap.HostName := "example.org" |};
                 {| imap.PersonalName := "C"; imap.MailboxName := "carol";
                    imap.HostName := "example.org" |}] |}.

Definition record (n : Z) (body : list literal) : imap.Message literal :=
  {| imap.SeqNum := n; imap.Envelope_ := Some envelope; imap.Flags := ["\Seen"];
     imap.Size := 120; imap.Body := body |}.

(** A record that carries flags only, as a server sends it for a change of
    flags: no envelope, no body. *)
Definition flags_only (n : Z) : imap.Message literal :=
  {| imap.SeqNum := n; imap.Envelope_ := None; imap.Flags := ["\Seen"];
     imap.Size := 0; imap.Body := [] |}.

(** The message listed for [record n body]. *)
Definition entry (n : Z) : Message :=
  {| ID := fmt_d n; Subject := "hello"; Date := 1700000000;
     Flags := ["\Seen"]; From := "alice@example.org";
     To := ["bob@example.org"; "carol@example.org"];
     Size := 0; Body := ""; Attachments := [] |}.

Definition inline (s : string) : mail.next :=
  mail.Next {| mail.Header := mail.InlineHeader;
               mail.ReadAll := list_byte_of_string s |}.

Definition attachment (name s : string) : mail.next :=
  mail.Next {| mail.Header :=
                 mail.AttachmentHeader_
                   {| mail.Filename := name;
                      mail.ContentType := "application/octet-stream" |};
               mail.ReadAll := list_byte_of_string s |}.

(** A well-formed body: one inline part between two attachments. *)
Definition three_parts : reader :=
  {| pending := [attachment "a.bin" "AAA"; inline "text"; attachment "b.bin" "BBB"];
     after := mail.EOF |}.

(** A body cut off before its closing boundary: every call of
    [NextPart] reports the same error, which is not [io.EOF]. *)
Definition truncated : reader :=
  {| pending := [];
     after := mail.Failed (errorString "multipart: NextPart: EOF") |}.

Definition failing_logout : world :=
  {| login := None; logout := Some (errorString "imap: connection closed");
     mailbox := Ok {| imap.Messages := 3 |};
     records := []; fetched := None |}.

End Script.

(** A second scripted library, for connection set-up and folder listing:
    the outcome of every step of [Connect] and of [List] is fixed in
    advance; the handle of every session is [7]. *)
Module Gateway.

Record world : Type :=
  { dial : option error;
    starttls : option error;
    login : option error;
    logout : option error;
    folders : list imap.MailboxInfo;
    listed : option error }.

Definition dialled (w : world) : result Z * world :=
  match dial w with
  | Some err => (Err err, w)
  | None => (Ok 7, w)
  end.

#[global] Instance library : imap.Client world Z unit :=
  {| imap.Dial := fun _ w => dialled w;
     imap.DialTLS := fun _ _ w => dialled w;
     imap.StartTLS := fun _ _ w => (starttls w, w);
     imap.Login := fun _ _ _ w => (login w, w);
     imap.Logout := fun _ w => (logout w, w);
     imap.List := fun _ _ _ w => (folders w, listed w, w);
     imap.Select := fun _ _ _ w => (Ok {| imap.Messages := 0 |}, w);
     imap.Fetch := fun _ _ _ w => ([], None, w) |}.

(** A server on which every step succeeds and that lists three folders. *)
Definition healthy : world :=
  {| dial := None; starttls := None; login := None; logout := None;
     folders := [{| imap.Name := "INBOX" |}; {| imap.Name := "Sent" |};
                 {| imap.Name := "Trash" |}];
     listed := None |}.


Definition refusing_starttls : world :=
  {| dial := None;
     starttls := Some (errorString "tls: handshake failure");
     login := None; logout := None; folders := []; listed := None |}.

Definition broken_listing : world :=
  {| dial := None; starttls := None; login := None; logout := None;
     folders := [{| imap.Name := "INBOX" |}];
     listed := Some (errorString "imap: connection closed") |}.

Definition fresh (port : Z) (w : world) : state world Z :=
  {| self := NewIMAPClient (Script.cfg port);
     server := w; calls := []; stdout := [] |}.

Definition connected (w : world) : state world Z :=
  {| self := {| config := Script.cfg 993; client := Some 7 |};
     server := w; calls := []; stdout := [] |}.

End Gateway.

Unset Implicit Arguments.

(** ** Integer conversions *)

Lemma uint32_range (z : Z) : 0 <= uint32 z < 2 ^ 32.
Proof. unfold uint32. apply Z.mod_pos_bound. lia. Qed.

Lemma uint32_small (z : Z) : 0 <= z < 2 ^ 32 -> uint32 z = z.
Proof. intro H. unfold uint32. now apply Z.mod_small. Qed.

(** Converting an [int] to [uint32] keeps the low 32 bits, on both
    targets. *)
Lemma uint32_int (a : arch) (z : Z) : uint32 (int a z) = uint32 z.
Proof.
  unfold uint32, int.
  assert (E : exists k, 2 ^ intSize a = k * 2 ^ 32)
    by (destruct a; [exists 1 | exists (2 ^ 32)]; reflexivity).
  destruct E as [k E].
  set (h := 2 ^ (intSize a - 1)).
  rewrite (Z.mod_eq (z + h) (2 ^ intSize a)) by (destruct a; simpl; lia).
  rewrite E.
  replace (z + h - k * 2 ^ 32 * ((z + h) / (k * 2 ^ 32)) - h)
    with (z + (- (k * ((z + h) / (k * 2 ^ 32)))) * 2 ^ 32) by ring.
  apply Z_mod_plus_full.
Qed.

Lemma uint32_page_offset (a : arch) (page pageSize : Z) :
  uint32 (page_offset a page pageSize) = uint32 ((page - 1) * pageSize).
Proof.
  unfold page_offset. rewrite uint32_int. unfold uint32.
  rewrite <- Z.mul_mod_idemp_l by lia.
  fold (uint32 (int a (page - 1))). rewrite uint32_int. unfold uint32.
  rewrite Z.mul_mod_idemp_l by lia. reflexivity.
Qed.

(** While the product fits 32 bits, the compared value is the product. *)
Lemma uint32_page_offset_exact (a : arch) (page pageSize : Z) :
  1 <= page -> 1 <= pageSize -> (page - 1) * pageSize < 2 ^ 32 ->
  uint32 (page_offset a page pageSize) = (page - 1) * pageSize.
Proof.
  intros Hp Hs Hlt. rewrite uint32_page_offset. apply uint32_small. nia.
Qed.

(** On a 32-bit target every positive [int] is below [2^32]: only a 64-bit
    target has page sizes that [uint32] truncates. *)
Lemma is_int_arch32_below (z : Z) : is_int arch32 z -> z < 2 ^ 32.
Proof. unfold is_int. cbn [intSize]. lia. Qed.

(** The arithmetic of lines 163-169 on a page that is not empty and a page
    size that [uint32] represents. *)
Lemma range_arith (totalCount off pageSize : Z) :
  0 <= off < totalCount -> totalCount < 2 ^ 32 -> 1 <= pageSize < 2 ^ 32 ->
  let from := sub32 totalCount off in
  let to := if uint32 pageSize <? from
            then add32 (sub32 from (uint32 pageSize)) 1 else 1 in
  from = totalCount - off /\
  to = (if pageSize <? from then from - pageSize + 1 else 1) /\
  1 <= to /\ to <= from /\ from <= totalCount /\ from - to + 1 <= pageSize.
Proof.
  intros Ho Ht Hs from to.
  assert (Hf : from = totalCount - off)
    by (unfold from, sub32; apply uint32_small; lia).
  assert (Hto : to = (if pageSize <? from then from - pageSize + 1 else 1)).
  { unfold to. rewrite (uint32_small pageSize) by lia.
    destruct (pageSize <? from) eqn:E; [| reflexivity].
    apply Z.ltb_lt in E. unfold add32, sub32.
    rewrite (uint32_small (from - pageSize)) by lia.
    apply uint32_small. lia. }
  split; [exact Hf |]. split; [exact Hto |].
  rewrite Hto. destruct (pageSize <? from) eqn:E.
  - apply Z.ltb_lt in E. lia.
  - apply Z.ltb_ge in E. lia.
Qed.

(** ** The record loops *)

Lemma fold_left_snoc_map {A B} (f : A -> B) (l : list A) (acc : list B) :
  fold_left (fun r x => (r ++ [f x])%list) l acc = (acc ++ map f l)%list.
Proof.
  revert acc. induction l as [| x l IH]; intro acc; simpl.
  - now rewrite app_nil_r.
  - rewrite IH, <- app_assoc. reflexivity.
Qed.

(** The address loop appends the formatted addresses and changes no other
    field. *)
Lemma fold_set_To_eq {X} (f : X -> string) (l : list X) :
  forall message,
    fold_left (fun message x => set_To message (To message ++ [f x])) l message =
    set_To message (To message ++ map f l).
Proof.
  induction l as [| x l IH]; intro message; cbn [fold_left map].
  - rewrite app_nil_r. destruct message; reflexivity.
  - rewrite IH. unfold set_To. cbn. rewrite <- app_assoc. reflexivity.
Qed.

(** The two range fetches treat a record alike. *)
Lemma GetFolderMessages_message_eq {Literal} (msg : imap.Message Literal) :
  GetFolderMessages_message msg = GetInbox_message msg.
Proof. reflexivity. Qed.

Lemma GetFolderMessages_records_eq {Literal} (msgs : list (imap.Message Literal)) :
  forall result, GetFolderMessages_records msgs result = GetInbox_records msgs result.
Proof.
  induction msgs as [| msg msgs IH]; intro result; [reflexivity |].
  cbn [GetFolderMessages_records GetInbox_records].
  rewrite GetFolderMessages_message_eq.
  destruct (GetInbox_message msg); [apply IH | reflexivity].
Qed.

(** A record with an envelope is listed field by field; a record without
    one makes the loop body panic. *)
Lemma GetInbox_message_listed {Literal} (msg : imap.Message Literal) :
  GetInbox_message msg =
  match imap.Envelope_ msg with
  | Some envelope => Returns (listed msg envelope)
  | None => Panics nil_dereference
  end.
Proof.
  unfold GetInbox_message, listed.
  destruct (imap.Envelope_ msg) as [envelope |]; [| reflexivity].
  rewrite fold_set_To_eq. destruct (imap.From envelope); reflexivity.
Qed.

(** The record loop over records that all carry an envelope appends one
    listed message per record, in order. *)
Lemma GetInbox_records_enveloped {Literal} (msgs : list (imap.Message Literal)) :
  enveloped msgs ->
  forall result,
    exists ms,
      GetInbox_records msgs result = Returns (result ++ ms)%list /\
      Forall2 (fun msg m => exists envelope,
                   imap.Envelope_ msg = Some envelope /\ m = listed msg envelope)
              msgs ms.
Proof.
  unfold enveloped.
  induction msgs as [| msg msgs IH]; intros Hall result.
  - exists []. cbn. rewrite app_nil_r. split; [reflexivity | constructor].
  - inversion Hall as [| ? ? Hmsg Hrest]; subst.
    cbn [GetInbox_records]. rewrite GetInbox_message_listed.
    destruct (imap.Envelope_ msg) as [envelope |] eqn:E; [| now elim Hmsg].
    destruct (IH Hrest (result ++ [listed msg envelope])%list) as (ms & Hms & Hall2).
    exists (listed msg envelope :: ms). split.
    + rewrite Hms, <- app_assoc. reflexivity.
    + constructor; [exists envelope; split; [exact E | reflexivity] | exact Hall2].
Qed.

(** The record loop returns only when every record carries an envelope;
    otherwise it panics on the first record that has none. *)
Lemma GetInbox_records_outcome {Literal} (msgs : list (imap.Message Literal)) :
  forall result,
    match GetInbox_records msgs result with
    | Returns _ => enveloped msgs
    | Panics v => v = nil_dereference /\ ~ enveloped msgs
    end.
Proof.
  unfold enveloped.
  induction msgs as [| msg msgs IH]; intro result; [constructor |].
  cbn [GetInbox_records]. rewrite GetInbox_message_listed.
  destruct (imap.Envelope_ msg) as [envelope |] eqn:E.
  - specialize (IH (result ++ [listed msg envelope])%list).
    destruct (GetInbox_records msgs _) as [r | v].
    + constructor; [rewrite E; discriminate | exact IH].
    + destruct IH as [Hv Hn]. split; [exact Hv |].
      intro Hall. inversion Hall; subst. now apply Hn.
  - split; [reflexivity |]. intro Hall. inversion Hall as [| ? ? Hmsg _]; subst.
    now apply Hmsg.
Qed.

(** ** Range fetches *)

Section RangeFetch.

Variable a : arch.
Context {World Conn Literal : Type} {IC : imap.Client World Conn Literal}.
Variables (st : state World Conn) (cl : Conn).
Variables (mbox : imap.MailboxStatus) (w' : World).
Hypothesis connected : client (self st) = Some cl.

Lemma GetInbox_empty (page pageSize : Z) :
  imap.Select cl "INBOX" false (server st) = (Ok mbox, w') ->
  imap.Messages mbox <= uint32 (page_offset a page pageSize) ->
  GetInbox a page pageSize st =
  (Returns (Ok {| inbox_Messages := []; inbox_TotalCount := imap.Messages mbox |}),
   selected st cl "INBOX" w').
Proof.
  intros Hsel Hle.
  unfold GetInbox, bind, get_self, client_Select, call, ret.
  rewrite connected, Hsel. fold (page_offset a page pageSize).
  destruct (imap.Messages mbox =? 0) eqn:E0.
  - apply Z.eqb_eq in E0. rewrite E0. reflexivity.
  - apply Z.leb_le in Hle. rewrite Hle. reflexivity.
Qed.

Lemma GetFolderMessages_empty (folder : string) (page pageSize : Z) :
  imap.Select cl folder false (server st) = (Ok mbox, w') ->
  imap.Messages mbox <= uint32 (page_offset a page pageSize) ->
  GetFolderMessages a folder page pageSize st =
  (Returns (Ok {| folder_Messages := []; folder_TotalCount := imap.Messages mbox |}),
   selected st cl folder w').
Proof.
  intros Hsel Hle.
  unfold GetFolderMessages, bind, get_self, client_Select, call, ret.
  rewrite connected, Hsel. fold (page_offset a page pageSize).
  destruct (imap.Messages mbox =? 0) eqn:E0.
  - apply Z.eqb_eq in E0. rewrite E0. reflexivity.
  - apply Z.leb_le in Hle. rewrite Hle. reflexivity.
Qed.

(** How a range fetch ends once the records [msgs] and the deferred
    error [done] are in. *)
Lemma GetInbox_fetch (page pageSize : Z) msgs done w'' :
  imap.Select cl "INBOX" false (server st) = (Ok mbox, w') ->
  uint32 (page_offset a page pageSize) < imap.Messages mbox ->
  let total := imap.Messages mbox in
  let seqSet := imap.AddRange imap.new_SeqSet (page_to a total page pageSize)
                              (page_from a total page pageSize) in
  imap.Fetch cl seqSet [imap.FetchEnvelope; imap.FetchFlags] w' =
    (msgs, done, w'') ->
  GetInbox a page pageSize st =
  (match GetInbox_records msgs [] with
   | Panics v => Panics v
   | Returns result =>
       Returns match done with
               | Some err => Err (FetchError err)
               | None => Ok {| inbox_Messages := result;
                               inbox_TotalCount := total |}
               end
   end,
   fetched_page (selected st cl "INBOX" w') cl seqSet w''
                "Fetching inbox messages").
Proof.
  intros Hsel Hlt total seqSet Hfetch.
  pose proof (uint32_range (page_offset a page pageSize)) as Hr.
  unfold GetInbox, bind, get_self, client_Select, client_Fetch, call, ret, Println.
  rewrite connected, Hsel. fold (page_offset a page pageSize). fold total.
  replace (total =? 0) with false by (symmetry; apply Z.eqb_neq; unfold total; lia).
  replace (total <=? uint32 (page_offset a page pageSize)) with false
    by (symmetry; apply Z.leb_gt; exact Hlt).
  fold (page_from a total page pageSize).
  change (if uint32 pageSize <? page_from a total page pageSize
          then add32 (sub32 (page_from a total page pageSize) (uint32 pageSize)) 1
          else 1) with (page_to a total page pageSize).
  fold seqSet. cbn [server]. rewrite Hfetch.
  destruct (GetInbox_records msgs []); [destruct done |]; reflexivity.
Qed.

Lemma GetFolderMessages_fetch (folder : string) (page pageSize : Z) msgs done w'' :
  imap.Select cl folder false (server st) = (Ok mbox, w') ->
  uint32 (page_offset a page pageSize) < imap.Messages mbox ->
  let total := imap.Messages mbox in
  let seqSet := imap.AddRange imap.new_SeqSet (page_to a total page pageSize)
                              (page_from a total page pageSize) in
  imap.Fetch cl seqSet [imap.FetchEnvelope; imap.FetchFlags] w' =
    (msgs, done, w'') ->
  GetFolderMessages a folder page pageSize st =
  (match GetInbox_records msgs [] with
   | Panics v => Panics v
   | Returns result =>
       Returns match done with
               | Some err => Err (FetchError err)
               | None => Ok {| folder_Messages := result;
                               folder_TotalCount := total |}
               end
   end,
   fetched_page (selected st cl folder w') cl seqSet w''
                ("Fetching messages from folder: " ++ folder)).
Proof.
  intros Hsel Hlt total seqSet Hfetch.
  pose proof (uint32_range (page_offset a page pageSize)) as Hr.
  unfold GetFolderMessages, bind, get_self, client_Select, client_Fetch,
    call, ret, Println.
  rewrite connected, Hsel. fold (page_offset a page pageSize). fold total.
  replace (total =? 0) with false by (symmetry; apply Z.eqb_neq; unfold total; lia).
  replace (total <=? uint32 (page_offset a page pageSize)) with false
    by (symmetry; apply Z.leb_gt; exact Hlt).
  fold (page_from a total page pageSize).
  change (if uint32 pageSize <? page_from a total page pageSize
          then add32 (sub32 (page_from a total page pageSize) (uint32 pageSize)) 1
          else 1) with (page_to a total page pageSize).
  fold seqSet. cbn [server]. rewrite Hfetch, GetFolderMessages_records_eq.
  destruct (GetInbox_records msgs []); [destruct done |]; reflexivity.
Qed.

End RangeFetch.

(** C1.  A page that starts at or beyond the end of the mailbox is empty:
    when the selected mailbox holds [totalCount] messages and
    [totalCount <= uint32(offset)], where [offset] is Go's
    [(page - 1) * pageSize], [GetFolderMessages] and [GetInbox] return no
    messages and [TotalCount = totalCount], and nothing is fetched.  Since
    [uint32(offset)] is never negative this covers [totalCount = 0].  The
    bounds [page >= 1] and [pageSize >= 1] are not needed. *)
Theorem empty_page_beyond_total :
  forall (a : arch) {World Conn Literal : Type}
         {IC : imap.Client World Conn Literal}
         (st : state World Conn) (cl : Conn) (folder : string)
         (mbox : imap.MailboxStatus) (w' : World) (page pageSize : Z),
    client (self st) = Some cl ->
    imap.Select cl folder false (server st) = (Ok mbox, w') ->
    imap.Messages mbox <= uint32 (page_offset a page pageSize) ->
    GetFolderMessages a folder page pageSize st =
      (Returns (Ok {| folder_Messages := [];
                      folder_TotalCount := imap.Messages mbox |}),
       selected st cl folder w') /\
    (folder = "INBOX" ->
     GetInbox a page pageSize st =
       (Returns (Ok {| inbox_Messages := [];
                       inbox_TotalCount := imap.Messages mbox |}),
        selected st cl "INBOX" w')).
Proof.
  intros a World Conn Literal IC st cl folder mbox w' page pageSize Hc Hsel Hle.
  split.
  - now apply GetFolderMessages_empty.
  - intros ->. now apply GetInbox_empty.
Qed.

Lemma empty_page_beyond_total_witness :
  let st := Script.connected (Script.serving 25 [] None) in
  GetFolderMessages arch64 "INBOX" 4 10 st =
    (Returns (Ok {| folder_Messages := []; folder_TotalCount := 25 |}),
     selected st 1 "INBOX" (Script.serving 25 [] None)) /\
  ("INBOX" = "INBOX" ->
   GetInbox arch64 4 10 st =
     (Returns (Ok {| inbox_Messages := []; inbox_TotalCount := 25 |}),
      selected st 1 "INBOX" (Script.serving 25 [] None))).
Proof.
  intro st.
  apply (empty_page_beyond_total arch64 st 1 "INBOX"
           {| imap.Messages := 25 |} (Script.serving 25 [] None) 4 10).
  - reflexivity.
  - reflexivity.
  - vm_compute. discriminate.
Defined.

(** An empty mailbox gives an empty page with [TotalCount = 0], whatever
    the page and the page size. *)
Corollary empty_mailbox_page :
  forall (a : arch) {World Conn Literal : Type}
         {IC : imap.Client World Conn Literal}
         (st : state World Conn) (cl : Conn) (w' : World) (page pageSize : Z),
    client (self st) = Some cl ->
    imap.Select cl "INBOX" false (server st) = (Ok {| imap.Messages := 0 |}, w') ->
    fst (GetInbox a page pageSize st) =
      Returns (Ok {| inbox_Messages := []; inbox_TotalCount := 0 |}).
Proof.
  intros a World Conn Literal IC st cl w' page pageSize Hc Hsel.
  rewrite (GetInbox_empty a st cl {| imap.Messages := 0 |} w' Hc page pageSize Hsel).
  - reflexivity.
  - apply uint32_range.
Qed.

(** On a 64-bit target the comparison is made on the low 32 bits of the
    product: page 2 of size [2^32] of a mailbox of 5 messages has
    [uint32(offset) = 0], and a fetch is issued. *)
Example wrapped_offset_fetches :
  uint32 (page_offset arch64 2 (2 ^ 32)) = 0 /\
  calls (snd (GetInbox arch64 2 (2 ^ 32)
                (Script.connected (Script.serving 5 [] None)))) =
    [call_Select 1 "INBOX" false;
     call_Fetch 1 (imap.AddRange imap.new_SeqSet 6 5)
                [imap.FetchEnvelope; imap.FetchFlags]].
Proof. split; reflexivity. Qed.

(** C2, as amended.  When the page is not empty and [pageSize] is below
    [2^32], the fetch asks for the range [[to, from]] with
    [1 <= to <= from <= totalCount], at most [pageSize] numbers, and
    [to = from - pageSize + 1] if [from > pageSize], else [to = 1]. *)
Theorem page_range_within_bounds :
  forall (a : arch) {World Conn Literal : Type}
         {IC : imap.Client World Conn Literal}
         (st : state World Conn) (cl : Conn) (folder : string)
         (mbox : imap.MailboxStatus) (w' : World) (page pageSize : Z),
    client (self st) = Some cl ->
    imap.Select cl folder false (server st) = (Ok mbox, w') ->
    is_uint32 (imap.Messages mbox) ->
    1 <= pageSize < 2 ^ 32 ->
    uint32 (page_offset a page pageSize) < imap.Messages mbox ->
    let total := imap.Messages mbox in
    let from := page_from a total page pageSize in
    let to := page_to a total page pageSize in
    let issued :=
      (calls st ++
       [call_Select cl folder false;
        call_Fetch cl (imap.AddRange imap.new_SeqSet to from)
                   [imap.FetchEnvelope; imap.FetchFlags]])%list in
    calls (snd (GetFolderMessages a folder page pageSize st)) = issued /\
    (folder = "INBOX" -> calls (snd (GetInbox a page pageSize st)) = issued) /\
    1 <= to /\ to <= from /\ from <= total /\ from - to + 1 <= pageSize /\
    to = (if pageSize <? from then from - pageSize + 1 else 1).
Proof.
  intros a World Conn Literal IC st cl folder mbox w' page pageSize
         Hc Hsel Hu Hs Hlt total from to issued.
  pose proof (uint32_range (page_offset a page pageSize)) as Hr.
  destruct (range_arith total (uint32 (page_offset a page pageSize)) pageSize)
    as (_ & Hto & H1 & H2 & H3 & H4);
    [unfold total; lia | apply Hu | exact Hs |].
  fold (page_from a total page pageSize) in Hto, H1, H2, H3, H4.
  change (if uint32 pageSize <? page_from a total page pageSize
          then add32 (sub32 (page_from a total page pageSize) (uint32 pageSize)) 1
          else 1) with (page_to a total page pageSize) in Hto, H1, H2, H4.
  split; [| split].
  - destruct (imap.Fetch cl (imap.AddRange imap.new_SeqSet to from)
                [imap.FetchEnvelope; imap.FetchFlags] w') as [[msgs done] w''] eqn:Hf.
    rewrite (GetFolderMessages_fetch a st cl mbox w' Hc folder page pageSize
               msgs done w'' Hsel Hlt Hf).
    unfold issued. cbn [snd fetched_page selected calls].
    rewrite <- app_assoc. reflexivity.
  - intros ->.
    destruct (imap.Fetch cl (imap.AddRange imap.new_SeqSet to from)
                [imap.FetchEnvelope; imap.FetchFlags] w') as [[msgs done] w''] eqn:Hf.
    rewrite (GetInbox_fetch a st cl mbox w' Hc page pageSize
               msgs done w'' Hsel Hlt Hf).
    unfold issued. cbn [snd fetched_page selected calls].
    rewrite <- app_assoc. reflexivity.
  - repeat split; assumption.
Qed.

Lemma page_range_within_bounds_witness :
  let st := Script.connected (Script.serving 25 [] None) in
  let issued :=
    [call_Select 1 "INBOX" false;
     call_Fetch 1 (imap.AddRange imap.new_SeqSet 1 5)
                [imap.FetchEnvelope; imap.FetchFlags]] in
  calls (snd (GetFolderMessages arch64 "INBOX" 3 10 st)) = issued /\
  ("INBOX" = "INBOX" -> calls (snd (GetInbox arch64 3 10 st)) = issued) /\
  1 <= 1 /\ 1 <= 5 /\ 5 <= 25 /\ 5 - 1 + 1 <= 10 /\
  1 = (if 10 <? 5 then 5 - 10 + 1 else 1).
Proof.
  intros st issued.
  apply (page_range_within_bounds arch64 st 1 "INBOX"
           {| imap.Messages := 25 |} (Script.serving 25 [] None) 3 10).
  - reflexivity.
  - reflexivity.
  - split; [vm_compute; discriminate | reflexivity].
  - split; [vm_compute; discriminate | reflexivity].
  - reflexivity.
Defined.

(** C2 as stated fails for a page size that [uint32] truncates: on a
    64-bit target, page 1 of size [2^32] of a mailbox of 5 messages is not
    empty ([uint32(offset) = 0 < 5]) and the range asked for is [[6, 5]]:
    [to > from], and [to] is not the [1] that the boundary rule gives for
    [from <= pageSize]. *)
Lemma page_range_counterexample :
  let st := Script.connected (Script.serving 5 [] None) in
  let page := 1 in
  let pageSize := 2 ^ 32 in
  (0 <= 5 /\ 1 <= page /\ 1 <= pageSize /\ is_int arch64 pageSize) /\
  fst (imap.Select 1 "INBOX" false (server st)) = Ok {| imap.Messages := 5 |} /\
  uint32 (page_offset arch64 page pageSize) < 5 /\
  calls (snd (GetInbox arch64 page pageSize st)) =
    [call_Select 1 "INBOX" false;
     call_Fetch 1 (imap.AddRange imap.new_SeqSet 6 5)
                [imap.FetchEnvelope; imap.FetchFlags]] /\
  ~ (6 <= 5) /\
  6 <> (if pageSize <? 5 then 5 - pageSize + 1 else 1).
Proof.
  intros st page pageSize.
  repeat split; try reflexivity; try (vm_compute; discriminate).
  vm_compute. intro H. now apply H.
Qed.




(** C10.  [GetInbox(page, pageSize)] and
    [GetFolderMessages("INBOX", page, pageSize)] agree from every state and
    for all arguments: both fail, or both return the same messages and the
    same total, or both panic on a record without envelope; they make the
    same library calls, and they leave the same client and the same world;
    neither changes the client. *)
Theorem GetInbox_is_GetFolderMessages_INBOX :
  forall (a : arch) {World Conn Literal : Type}
         {IC : imap.Client World Conn Literal}
         (st : state World Conn) (page pageSize : Z),
    let r1 := GetInbox a page pageSize st in
    let r2 := GetFolderMessages a "INBOX" page pageSize st in
    same_page (fst r1) (fst r2) /\
    self (snd r1) = self (snd r2) /\
    server (snd r1) = server (snd r2) /\
    calls (snd r1) = calls (snd r2) /\
    self (snd r1) = self st.
Proof.
  intros a World Conn Literal IC st page pageSize.
  unfold GetInbox, GetFolderMessages, bind, get_self, client_Select,
    client_Fetch, call, ret, Println.
  destruct (client (self st)) as [cl |]; [| cbn; auto].
  destruct (imap.Select cl "INBOX" false (server st)) as [[mbox | e] w];
    [| cbn; auto].
  destruct (imap.Messages mbox =? 0); [cbn; auto |].
  destruct (imap.Messages mbox <=? _); [cbn; auto |].
  cbn [server].
  destruct (imap.Fetch _ _ _ _) as [[msgs done] w''].
  pose proof (GetFolderMessages_records_eq msgs []) as E.
  destruct (GetFolderMessages_records msgs []) as [r2 | v2];
    destruct (GetInbox_records msgs []) as [r1 | v1];
    try discriminate E; [injection E as -> |];
    [destruct done |]; cbn; auto.
Qed.

(** The agreement stops at the text: the two operations print different
    lines and word a failed selection differently. *)
Example GetInbox_GetFolderMessages_wording :
  let st := Script.connected (Script.serving 25 [] None) in
  stdout (snd (GetInbox arch64 1 10 st)) = ["Fetching inbox messages"] /\
  stdout (snd (GetFolderMessages arch64 "INBOX" 1 10 st)) =
    ["Fetching messages from folder: INBOX"].
Proof. split; reflexivity. Qed.

(** ** The MIME body walk *)

Lemma last_cons_default {A} (x : A) (l : list A) (d : A) :
  last (x :: l) d = last l x.
Proof.
  revert x d. induction l as [| y l IH]; intros x d; [reflexivity |].
  change (last (x :: y :: l) d) with (last (y :: l) d).
  rewrite (IH y d), (IH y x). reflexivity.
Qed.

Section Walk.

Context {Literal Reader : Type} {MD : mail.Decoder Literal Reader}.

(** A reader that delivers [evs] and then the end: the part loop stops
    after [length evs + 1] calls of [NextPart]; the body is the content of
    the last inline part, the attachments are appended in order, and the
    failed calls leave no trace. *)
Lemma parts_delivers (evs : list mail.next) :
  forall (mr : Reader) (message : Message) (fuel : nat),
    delivers mr evs -> (List.length evs < fuel)%nat ->
    GetEmailByID_parts fuel mr message =
    Some (set_Attachments
            (set_Body message (last (inline_contents evs) (Body message)))
            (Attachments message ++ attachment_parts evs)).
Proof.
  induction evs as [| ev evs IH]; intros mr message fuel Hd Hlen.
  - destruct fuel as [| fuel]; [inversion Hlen |].
    cbn in Hd. cbn [GetEmailByID_parts].
    destruct (mail.NextPart mr) as [r mr']. cbn in Hd. subst r.
    cbn. rewrite app_nil_r. destruct message; reflexivity.
  - destruct fuel as [| fuel]; [inversion Hlen |].
    cbn [List.length] in Hlen. apply PeanoNat.lt_S_n in Hlen.
    destruct Hd as (Hne & Hev & Hrest).
    cbn [GetEmailByID_parts].
    destruct (mail.NextPart mr) as [r mr']. cbn in Hev, Hrest. subst r.
    destruct ev as [| err | p]; [now elim Hne | |].
    + rewrite (IH mr' message fuel Hrest Hlen). reflexivity.
    + rewrite (IH mr' (GetEmailByID_part message p) fuel Hrest Hlen).
      unfold GetEmailByID_part. cbn [inline_contents attachment_parts].
      destruct (mail.Header p) as [| h |].
      * rewrite last_cons_default. reflexivity.
      * cbn. rewrite <- app_assoc. reflexivity.
      * reflexivity.
Qed.

(** More fuel does not change the result of a walk that has ended. *)
Lemma parts_fuel_mono (fuel : nat) :
  forall (mr : Reader) (message message' : Message),
    GetEmailByID_parts fuel mr message = Some message' ->
    GetEmailByID_parts (S fuel) mr message = Some message'.
Proof.
  induction fuel as [| fuel IH]; intros mr message message' H;
    [discriminate |].
  cbn [GetEmailByID_parts] in H.
  change (GetEmailByID_parts (S (S fuel)) mr message)
    with (let (r, mr') := mail.NextPart mr in
          match r with
          | mail.EOF => Some message
          | mail.Failed _ => GetEmailByID_parts (S fuel) mr' message
          | mail.Next p =>
              GetEmailByID_parts (S fuel) mr' (GetEmailByID_part message p)
          end).
  destruct (mail.NextPart mr) as [[| err | p] mr'];
    [exact H | now apply IH | now apply IH].
Qed.

(** While every call of [NextPart] fails with an error other than
    [io.EOF], the part loop does not leave: no amount of fuel ends it. *)
Lemma parts_never_end (failing : Reader -> Prop) :
  (forall mr, failing mr ->
              exists err, fst (mail.NextPart mr) = mail.Failed err /\
                          failing (snd (mail.NextPart mr))) ->
  forall (fuel : nat) (mr : Reader) (message : Message),
    failing mr -> GetEmailByID_parts fuel mr message = None.
Proof.
  intros Hstep fuel. induction fuel as [| fuel IH]; intros mr message Hf;
    [reflexivity |].
  destruct (Hstep mr Hf) as (err & Herr & Hnext).
  cbn [GetEmailByID_parts].
  destruct (mail.NextPart mr) as [r mr']. cbn in Herr, Hnext. subst r.
  now apply IH.
Qed.

(** The addresses of the envelope do not touch body and attachments. *)
Lemma fold_set_To_Body {X} (f : X -> string) (l : list X) :
  forall message,
    let message' :=
      fold_left (fun message x => set_To message (To message ++ [f x])) l message in
    Body message' = Body message /\ Attachments message' = Attachments message.
Proof.
  induction l as [| x l IH]; intro message; [split; reflexivity |].
  cbn [fold_left]. destruct (IH (set_To message (To message ++ [f x]))) as [H1 H2].
  split; [rewrite H1 | rewrite H2]; reflexivity.
Qed.

End Walk.

(** C3.  For a body literal whose reader delivers the outcomes [evs] and
    then the end, the walk sets [Body] to the content of the last inline
    part among [evs] (it keeps the body it found if there is none) and
    appends exactly the attachment parts among [evs], in the order met.
    So the message that [GetEmailByID] builds from a record with its
    envelope and that one literal has the last inline content as [Body]
    (empty if there is none) and exactly those attachments; neither depends
    on where the attachment parts stand between the inline parts.  A record
    without envelope is never walked: the loop body panics before. *)
Theorem walker_body_and_attachments :
  forall {Literal Reader : Type} {MD : mail.Decoder Literal Reader}
         (msg : imap.Message Literal) (literal : Literal) (mr : Reader)
         (evs : list mail.next) (fuel : nat),
    imap.Body msg = [literal] ->
    mail.CreateReader literal = Ok mr ->
    delivers mr evs ->
    (List.length evs < fuel)%nat ->
    (forall message,
        GetEmailByID_literals fuel (imap.Body msg) message =
        Some (set_Attachments
                (set_Body message (last (inline_contents evs) (Body message)))
                (Attachments message ++ attachment_parts evs))) /\
    match imap.Envelope_ msg with
    | Some _ =>
        exists message,
          GetEmailByID_message fuel msg = Some (Returns message) /\
          Body message = last (inline_contents evs) "" /\
          Attachments message = attachment_parts evs
    | None => GetEmailByID_message fuel msg = Some (Panics nil_dereference)
    end.
Proof.
  intros Literal Reader MD msg literal mr evs fuel Hb Hr Hd Hlen.
  assert (Hwalk : forall message,
             GetEmailByID_literals fuel (imap.Body msg) message =
             Some (set_Attachments
                     (set_Body message (last (inline_contents evs) (Body message)))
                     (Attachments message ++ attachment_parts evs))).
  { intro message. rewrite Hb. cbn [GetEmailByID_literals]. rewrite Hr.
    rewrite (parts_delivers evs mr message fuel Hd Hlen). reflexivity. }
  split; [exact Hwalk |].
  unfold GetEmailByID_message.
  destruct (imap.Envelope_ msg) as [envelope |]; [| reflexivity].
  rewrite Hwalk.
  match goal with
  | |- context [set_Body ?m _] => assert (HB : Body m = "" /\ Attachments m = [])
  end.
  { match goal with
    | |- context [fold_left _ ?l ?m0] =>
        destruct (fold_set_To_Body imap.Address_ l m0) as [H1 H2]
    end.
    cbv zeta in H1, H2. rewrite H1, H2.
    destruct (imap.From envelope); split; reflexivity. }
  destruct HB as [HB HA].
  eexists. split; [reflexivity |].
  cbn [Body Attachments set_Body set_Attachments].
  rewrite HB, HA. split; reflexivity.
Qed.

Lemma walker_body_and_attachments_witness :
  let msg := Script.record 7 [Some Script.three_parts] in
  let evs := Script.pending Script.three_parts in
  (forall message,
      GetEmailByID_literals 4 (imap.Body msg) message =
      Some (set_Attachments
              (set_Body message (last (inline_contents evs) (Body message)))
              (Attachments message ++ attachment_parts evs))) /\
  exists message,
    GetEmailByID_message 4 msg = Some (Returns message) /\
    Body message = last (inline_contents evs) "" /\
    Attachments message = attachment_parts evs.
Proof.
  intros msg evs.
  apply (walker_body_and_attachments msg
           (Some Script.three_parts) Script.three_parts evs 4).
  - reflexivity.
  - reflexivity.
  - cbn. repeat split; discriminate.
  - cbn. repeat constructor.
Defined.

(** One inline part and two attachments, in either order of the
    attachments around the inline part: two attachments in the order met,
    and the inline part's content as body. *)
Example one_inline_two_attachments :
  let a1 := Script.attachment "a.bin" "AAA" in
  let a2 := Script.attachment "b.bin" "BBB" in
  let run (f : Message -> list string) evs :=
    match GetEmailByID_message 4
            (Script.record 7 [Some {| Script.pending := evs;
                                      Script.after := mail.EOF |}]) with
    | Some (Returns m) => f m
    | _ => []
    end in
  let body m := [Body m] in
  let names m := map Filename (Attachments m) in
  run body [a1; Script.inline "text"; a2] = ["text"] /\
  run body [Script.inline "text"; a1; a2] = ["text"] /\
  run names [a1; a2; Script.inline "text"] = ["a.bin"; "b.bin"] /\
  run body [Script.inline "first"; Script.inline "second"] = ["second"].
Proof. repeat split; reflexivity. Qed.

(** ** Single-message fetch *)

(** C8.  The part loop of [GetEmailByID] does not end on a body whose
    reader keeps failing: with the record's body cut off before its closing
    boundary, every call of [NextPart] returns the same error, the loop
    takes [continue] each time, and the run is still in the loop after any
    number of calls. *)
Theorem GetEmailByID_loops_on_failing_reader :
  forall (fuel : nat),
    GetEmailByID fuel "7" "INBOX"
      (Script.connected
         (Script.serving 25 [Script.record 7 [Some Script.truncated]] None)) = None.
Proof.
  intro fuel.
  assert (H : forall message,
             GetEmailByID_parts fuel Script.truncated message = None).
  { intro message.
    apply (parts_never_end (fun mr => mr = Script.truncated)); [| reflexivity].
    intros mr ->. eexists. split; reflexivity. }
  unfold GetEmailByID. cbn -[GetEmailByID_parts].
  rewrite H. reflexivity.
Qed.

(** C6.  With a session in place, an [id] that [strconv.ParseUint]
    rejects makes [GetEmailByID] return the [InvalidID] error at once: the
    state is the one it started from, so nothing was selected, fetched or
    printed.  No call of [NextPart] is needed for that. *)
Theorem GetEmailByID_invalid_id :
  forall {World Conn Literal Reader : Type}
         {IC : imap.Client World Conn Literal}
         {MD : mail.Decoder Literal Reader}
         (st : state World Conn) (cl : Conn) (id folder : string)
         (err : error) (fuel : nat),
    client (self st) = Some cl ->
    ParseUint10 id 32 = Err err ->
    GetEmailByID fuel id folder st = Some (Returns (Err (InvalidID err)), st).
Proof.
  intros World Conn Literal Reader IC MD st cl id folder err fuel Hc Hp.
  unfold GetEmailByID. rewrite Hc, Hp. reflexivity.
Qed.

Lemma GetEmailByID_invalid_id_witness :
  let st := Script.connected (Script.serving 25 [Script.record 7 []] None) in
  GetEmailByID 0 "not-a-number" "INBOX" st =
    Some (Returns (Err (InvalidID (NumError "ParseUint" "not-a-number" ErrSyntax))),
          st).
Proof.
  intro st.
  apply (GetEmailByID_invalid_id st 1 "not-a-number" "INBOX"
           (NumError "ParseUint" "not-a-number" ErrSyntax) 0);
    reflexivity.
Defined.

(** C7.  When [id] is a sequence number, the mailbox is selected and the
    fetch of that one number ends without error and without a record,
    [GetEmailByID] returns the [NotFound] error. *)
Theorem GetEmailByID_not_found :
  forall {World Conn Literal Reader : Type}
         {IC : imap.Client World Conn Literal}
         {MD : mail.Decoder Literal Reader}
         (st : state World Conn) (cl : Conn) (id folder : string) (seqNum : Z)
         (mbox : imap.MailboxStatus) (w' w'' : World) (fuel : nat),
    client (self st) = Some cl ->
    ParseUint10 id 32 = Ok seqNum ->
    let name := if (folder =? "")%string then "INBOX" else folder in
    let items := [imap.FetchEnvelope; imap.FetchFlags; imap.FetchBodyStructure;
                  imap.FetchRFC822Size; "BODY[]"] in
    let seqSet := imap.AddNum imap.new_SeqSet (uint32 seqNum) in
    imap.Select cl name false (server st) = (Ok mbox, w') ->
    imap.Fetch cl seqSet items w' = ([], None, w'') ->
    GetEmailByID fuel id folder st =
    Some (Returns (Err (NotFound id)),
          {| self := self st; server := w'';
             calls := calls st ++ [call_Select cl name false;
                                   call_Fetch cl seqSet items];
             stdout := stdout st ++
                       ["Selecting folder for email ID " ++ id ++ " : " ++ name] |}).
Proof.
  intros World Conn Literal Reader IC MD st cl id folder seqNum mbox w' w'' fuel
         Hc Hp name items seqSet Hsel Hf.
  unfold GetEmailByID, Println, client_Select, client_Fetch, call.
  rewrite Hc, Hp. fold name. cbn [server]. rewrite Hsel. fold seqSet items.
  cbn [server]. rewrite Hf. cbn [GetEmailByID_records calls self stdout].
  rewrite <- app_assoc. reflexivity.
Qed.

Lemma GetEmailByID_not_found_witness :
  let w := Script.serving 25 [] None in
  GetEmailByID 0 "26" "" (Script.connected w) =
  Some (Returns (Err (NotFound "26")),
        {| self := self (Script.connected w); server := w;
           calls := [call_Select 1 "INBOX" false;
                     call_Fetch 1 (imap.AddNum imap.new_SeqSet 26)
                       [imap.FetchEnvelope; imap.FetchFlags;
                        imap.FetchBodyStructure; imap.FetchRFC822Size; "BODY[]"]];
           stdout := ["Selecting folder for email ID 26 : INBOX"] |}).
Proof.
  intro w.
  apply (GetEmailByID_not_found (Script.connected w) 1 "26" "" 26
           {| imap.Messages := 25 |} w w 0);
    reflexivity.
Defined.

(** ** The session guard *)

(** C4, as amended.  [Connect] applies the certificate-validation bypass
    on every port: the one TLS configuration it hands to the library has
    [InsecureSkipVerify] set.  The port only chooses how the connection is
    opened.  On port 1143 it calls [Dial] and, when that succeeds, at once
    [StartTLS] on the dialled connection with that configuration; on every
    other port it calls [DialTLS] with it.  No other call carries a TLS
    configuration. *)
Theorem Connect_skips_verification_on_every_port :
  forall {World Conn Literal : Type} {IC : imap.Client World Conn Literal}
         (st : state World Conn),
    let cfg := config (self st) in
    let addr := Host cfg ++ ":" ++ fmt_d (Port cfg) in
    let bypass := {| InsecureSkipVerify := true |} in
    exists issued,
      calls (snd (Connect st)) = (calls st ++ issued)%list /\
      Forall (fun c => InsecureSkipVerify c = true) (tls_configs issued) /\
      if Port cfg =? 1143
      then match fst (imap.Dial addr (server st)) with
           | Ok imapClient =>
               exists rest,
                 issued = call_Dial addr :: call_StartTLS imapClient bypass :: rest /\
                 tls_configs rest = []
           | Err _ => issued = [call_Dial addr]
           end
      else exists rest,
             issued = call_DialTLS addr bypass :: rest /\ tls_configs rest = [].
Proof.
  intros World Conn Literal IC st cfg addr bypass.
  unfold Connect, bind, get_self, client_Dial, client_DialTLS, client_StartTLS,
    client_Login, client_Logout, set_client, call, ret.
  fold cfg. fold addr. fold bypass.
  destruct (Port cfg =? 1143).
  - destruct (imap.Dial addr (server st)) as [[imapClient | err] w]; cbn.
    + destruct (imap.StartTLS _ _ _) as [[err |] w1]; cbn.
      * exists [call_Dial addr; call_StartTLS imapClient bypass].
        split; [rewrite <- app_assoc; reflexivity |].
        split; [repeat constructor |].
        exists []. split; reflexivity.
      * destruct (imap.Login _ _ _ _) as [[err |] w2]; cbn.
        -- destruct (imap.Logout _ _) as [e w3]; cbn.
           exists [call_Dial addr; call_StartTLS imapClient bypass;
                   call_Login imapClient (Username cfg) (Password cfg);
                   call_Logout imapClient].
           split; [rewrite <- !app_assoc; reflexivity |].
           split; [repeat constructor |].
           eexists. split; reflexivity.
        -- exists [call_Dial addr; call_StartTLS imapClient bypass;
                   call_Login imapClient (Username cfg) (Password cfg)].
           split; [rewrite <- !app_assoc; reflexivity |].
           split; [repeat constructor |].
           eexists. split; reflexivity.
    + exists [call_Dial addr]. split; [reflexivity |].
      split; [constructor | reflexivity].
  - destruct (imap.DialTLS addr _ (server st)) as [[imapClient | err] w]; cbn.
    + destruct (imap.Login _ _ _ _) as [[err |] w2]; cbn.
      * destruct (imap.Logout _ _) as [e w3]; cbn.
        exists [call_DialTLS addr bypass;
                call_Login imapClient (Username cfg) (Password cfg);
                call_Logout imapClient].
        split; [rewrite <- !app_assoc; reflexivity |].
        split; [repeat constructor |].
        eexists. split; reflexivity.
      * exists [call_DialTLS addr bypass;
                call_Login imapClient (Username cfg) (Password cfg)].
        split; [rewrite <- !app_assoc; reflexivity |].
        split; [repeat constructor |].
        eexists. split; reflexivity.
    + exists [call_DialTLS addr bypass]. split; [reflexivity |].
      split; [repeat constructor |].
      exists []. split; reflexivity.
Qed.

(** C4 as stated fails on port 993: the port is not 1143, and the TLS
    configuration that [Connect] passes to [DialTLS] skips the validation
    of the server certificate. *)
Lemma Connect_validates_counterexample :
  let st := Script.fresh 993 (Script.serving 25 [] None) in
  Port (config (self st)) <> 1143 /\
  calls (snd (Connect st)) =
    [call_DialTLS "mail.example.org:993" {| InsecureSkipVerify := true |};
     call_Login 1 "user" "secret"] /\
  ~ Forall (fun c => InsecureSkipVerify c = false)
           (tls_configs (calls (snd (Connect st)))).
Proof.
  intro st. split; [discriminate |]. split; [reflexivity |].
  intro H. vm_compute in H. inversion H as [| c l Hc Hl]. discriminate Hc.
Qed.

(** C9, as amended.  When the logout of a live session fails, [Disconnect]
    returns that error, wrapped, and leaves the session reference in place:
    the client still holds the session it held before. *)
Theorem Disconnect_failed_logout_keeps_session :
  forall {World Conn Literal : Type} {IC : imap.Client World Conn Literal}
         (st : state World Conn) (cl : Conn) (err : error) (w' : World),
    client (self st) = Some cl ->
    imap.Logout cl (server st) = (Some err, w') ->
    Disconnect st =
      (Some (wrapError "failed to logout from IMAP server" err),
       {| self := self st; server := w';
          calls := calls st ++ [call_Logout cl]; stdout := stdout st |}) /\
    client (self (snd (Disconnect st))) = Some cl.
Proof.
  intros World Conn Literal IC st cl err w' Hc Hl.
  unfold Disconnect, bind, get_self, client_Logout, call, ret.
  rewrite Hc, Hl. split; [reflexivity | exact Hc].
Qed.

Lemma Disconnect_failed_logout_keeps_session_witness :
  let st := Script.connected Script.failing_logout in
  Disconnect st =
    (Some (wrapError "failed to logout from IMAP server"
                     (errorString "imap: connection closed")),
     {| self := self st; server := Script.failing_logout;
        calls := [call_Logout 1]; stdout := [] |}) /\
  client (self (snd (Disconnect st))) = Some 1.
Proof.
  intro st.
  apply (Disconnect_failed_logout_keeps_session st 1
           (errorString "imap: connection closed") Script.failing_logout);
    reflexivity.
Defined.

(** The reference is cleared when the logout succeeds, and a client
    without a session is left alone. *)
Lemma Disconnect_clears_session :
  forall {World Conn Literal : Type} {IC : imap.Client World Conn Literal}
         (st : state World Conn) (cl : Conn) (w' : World),
    client (self st) = Some cl ->
    imap.Logout cl (server st) = (None, w') ->
    fst (Disconnect st) = None /\ client (self (snd (Disconnect st))) = None.
Proof.
  intros World Conn Literal IC st cl w' Hc Hl.
  unfold Disconnect, bind, get_self, client_Logout, set_client, call, ret.
  rewrite Hc, Hl. split; reflexivity.
Qed.

Lemma Disconnect_without_session :
  forall {World Conn Literal : Type} {IC : imap.Client World Conn Literal}
         (st : state World Conn),
    client (self st) = None -> Disconnect st = (None, st).
Proof.
  intros World Conn Literal IC st Hc.
  unfold Disconnect, bind, get_self, ret. rewrite Hc. reflexivity.
Qed.

(** C9 as stated fails: after a [Disconnect] whose logout failed, the
    session reference is not cleared, and the next operation does not report
    a missing connection but goes to the server. *)
Lemma Disconnect_clears_counterexample :
  let st := Script.connected Script.failing_logout in
  let st' := snd (Disconnect st) in
  fst (Disconnect st) =
    Some (wrapError "failed to logout from IMAP server"
                    (errorString "imap: connection closed")) /\
  client (self st') <> None /\
  fst (GetInbox arch64 1 10 st') <> Returns (Err NotConnected) /\
  calls (snd (GetInbox arch64 1 10 st')) =
    [call_Logout 1; call_Select 1 "INBOX" false;
     call_Fetch 1 (imap.AddRange imap.new_SeqSet 1 3)
                [imap.FetchEnvelope; imap.FetchFlags]].
Proof.
  intros st st'. repeat split; try reflexivity; discriminate.
Qed.


(** ** Further properties of the session guard *)

(** X1.  Without a session every operation that needs one returns the
    "not connected" error and leaves the state as it found it: no library
    call is made and nothing is printed.  [GetEmailByID] checks the session
    before it looks at [id]. *)
Theorem operations_need_session :
  forall (a : arch) {World Conn Literal Reader : Type}
         {IC : imap.Client World Conn Literal}
         {MD : mail.Decoder Literal Reader}
         (st : state World Conn) (id folder : string) (page pageSize : Z)
         (fuel : nat),
    client (self st) = None ->
    GetFolders st = (Err NotConnected, st) /\
    GetInbox a page pageSize st = (Returns (Err NotConnected), st) /\
    GetFolderMessages a folder page pageSize st = (Returns (Err NotConnected), st) /\
    GetEmailByID fuel id folder st = Some (Returns (Err NotConnected), st).
Proof.
  intros a World Conn Literal Reader IC MD st id folder page pageSize fuel Hc.
  unfold GetFolders, GetInbox, GetFolderMessages, GetEmailByID, bind, get_self, ret.
  rewrite Hc. repeat split.
Qed.

Lemma operations_need_session_witness :
  let st := Script.fresh 993 (Script.serving 25 [] None) in
  GetFolders st = (Err NotConnected, st) /\
  GetInbox arch64 1 10 st = (Returns (Err NotConnected), st) /\
  GetFolderMessages arch64 "Sent" 1 10 st = (Returns (Err NotConnected), st) /\
  GetEmailByID 0 "not-a-number" "Sent" st = Some (Returns (Err NotConnected), st).
Proof.
  intro st.
  apply (operations_need_session arch64 st "not-a-number" "Sent" 1 10 0).
  reflexivity.
Defined.

(** X2.  [Connect] touches the session reference only when it succeeds.
    When it returns an error the client is the one it started with (a
    session held before is still held).  When it returns [nil] the client
    holds the handle that the dial returned, the configuration is
    unchanged, and the library calls were the dial ([Dial] and [StartTLS]
    on port 1143, [DialTLS] otherwise) and the [Login], all on that handle:
    a session held before is replaced without being logged out. *)
Theorem Connect_sets_session_on_success_only :
  forall {World Conn Literal : Type} {IC : imap.Client World Conn Literal}
         (st : state World Conn),
    let cfg := config (self st) in
    let addr := Host cfg ++ ":" ++ fmt_d (Port cfg) in
    let bypass := {| InsecureSkipVerify := true |} in
    match fst (Connect st) with
    | Some _ => self (snd (Connect st)) = self st
    | None =>
        exists cl,
          self (snd (Connect st)) = {| config := cfg; client := Some cl |} /\
          calls (snd (Connect st)) =
            (calls st ++
             (if Port cfg =? 1143
              then [call_Dial addr; call_StartTLS cl bypass]
              else [call_DialTLS addr bypass]) ++
             [call_Login cl (Username cfg) (Password cfg)])%list /\
          (if Port cfg =? 1143
           then fst (imap.Dial addr (server st))
           else fst (imap.DialTLS addr bypass (server st))) = Ok cl
    end.
Proof.
  intros World Conn Literal IC st cfg addr bypass.
  unfold Connect, bind, get_self, client_Dial, client_DialTLS, client_StartTLS,
    client_Login, client_Logout, set_client, call, ret.
  fold cfg. fold addr. fold bypass.
  destruct (Port cfg =? 1143).
  - destruct (imap.Dial _ (server st)) as [[cl | err] w]; cbn; [| reflexivity].
    destruct (imap.StartTLS _ _ _) as [[err |] w1]; cbn; [reflexivity |].
    destruct (imap.Login _ _ _ _) as [[err |] w2]; cbn.
    + destruct (imap.Logout _ _) as [e w3]; reflexivity.
    + exists cl. split; [reflexivity |]. split; [| reflexivity].
      rewrite <- !app_assoc. reflexivity.
  - destruct (imap.DialTLS _ _ (server st)) as [[cl | err] w]; cbn; [| reflexivity].
    destruct (imap.Login _ _ _ _) as [[err |] w2]; cbn.
    + destruct (imap.Logout _ _) as [e w3]; reflexivity.
    + exists cl. split; [reflexivity |]. split; [| reflexivity].
      rewrite <- !app_assoc. reflexivity.
Qed.



(** X4.  A failed TLS upgrade ends [Connect] on the spot: the error is
    reported only on port 1143, and the library calls made are the [Dial]
    and the [StartTLS] alone.  There is no login, and the connection that
    was dialled is not logged out. *)
Theorem Connect_starttls_failure_stops :
  forall {World Conn Literal : Type} {IC : imap.Client World Conn Literal}
         (st : state World Conn) (err : error),
    fst (Connect st) = Some (wrapError "failed to start TLS" err) ->
    Port (config (self st)) = 1143 /\
    exists cl,
      calls (snd (Connect st)) =
        (calls st ++
         [call_Dial (Host (config (self st)) ++ ":" ++
                     fmt_d (Port (config (self st))));
          call_StartTLS cl {| InsecureSkipVerify := true |}])%list.
Proof.
  intros World Conn Literal IC st err.
  unfold Connect, bind, get_self, client_Dial, client_DialTLS, client_StartTLS,
    client_Login, client_Logout, set_client, call, ret.
  destruct (Port (config (self st)) =? 1143) eqn:Ep.
  - apply Z.eqb_eq in Ep.
    destruct (imap.Dial _ (server st)) as [[cl | e] w]; cbn; [| discriminate].
    destruct (imap.StartTLS _ _ _) as [[e |] w1]; cbn.
    + intros _. split; [exact Ep |]. exists cl.
      rewrite <- !app_assoc. reflexivity.
    + destruct (imap.Login _ _ _ _) as [[e |] w2]; cbn; [| discriminate].
      destruct (imap.Logout _ _) as [e' w3]; cbn. discriminate.
  - destruct (imap.DialTLS _ _ (server st)) as [[cl | e] w]; cbn; [| discriminate].
    destruct (imap.Login _ _ _ _) as [[e |] w2]; cbn; [| discriminate].
    destruct (imap.Logout _ _) as [e' w3]; cbn. discriminate.
Qed.

Lemma Connect_starttls_failure_stops_witness :
  Port (config (self (Gateway.fresh 1143 Gateway.refusing_starttls))) = 1143 /\
  exists cl,
    calls (snd (Connect (Gateway.fresh 1143 Gateway.refusing_starttls))) =
      (calls (Gateway.fresh 1143 Gateway.refusing_starttls) ++
       [call_Dial "mail.example.org:1143";
        call_StartTLS cl {| InsecureSkipVerify := true |}])%list.
Proof.
  apply (Connect_starttls_failure_stops
           (Gateway.fresh 1143 Gateway.refusing_starttls)
           (errorString "tls: handshake failure")).
  reflexivity.
Defined.

(** X5.  After a [Disconnect] whose logout succeeds the client is
    disconnected for good: the configuration is kept, a second
    [Disconnect] is a no-op success and the operations that need a session
    report "not connected", all without a further library call. *)
Theorem Disconnect_success_disconnects :
  forall (a : arch) {World Conn Literal : Type}
         {IC : imap.Client World Conn Literal}
         (st : state World Conn) (cl : Conn) (w' : World) (page pageSize : Z),
    client (self st) = Some cl ->
    imap.Logout cl (server st) = (None, w') ->
    let st1 := snd (Disconnect st) in
    fst (Disconnect st) = None /\
    self st1 = {| config := config (self st); client := None |} /\
    calls st1 = (calls st ++ [call_Logout cl])%list /\
    Disconnect st1 = (None, st1) /\
    GetFolders st1 = (Err NotConnected, st1) /\
    GetInbox a page pageSize st1 = (Returns (Err NotConnected), st1).
Proof.
  intros a World Conn Literal IC st cl w' page pageSize Hc Hl st1.
  assert (E : Disconnect st =
              (None, {| self := {| config := config (self st); client := None |};
                        server := w'; calls := calls st ++ [call_Logout cl];
                        stdout := stdout st |})).
  { unfold Disconnect, bind, get_self, client_Logout, set_client, call, ret.
    rewrite Hc, Hl. reflexivity. }
  unfold st1. rewrite E. cbn [fst snd self calls].
  repeat split.
Qed.

Lemma Disconnect_success_disconnects_witness :
  let st1 := snd (Disconnect (Gateway.connected Gateway.healthy)) in
  fst (Disconnect (Gateway.connected Gateway.healthy)) = None /\
  self st1 = {| config := Script.cfg 993; client := None |} /\
  calls st1 = [call_Logout 7] /\
  Disconnect st1 = (None, st1) /\
  GetFolders st1 = (Err NotConnected, st1) /\
  GetInbox arch64 1 10 st1 = (Returns (Err NotConnected), st1).
Proof.
  apply (Disconnect_success_disconnects arch64
           (Gateway.connected Gateway.healthy) 7 Gateway.healthy 1 10);
    reflexivity.
Defined.

(** X6.  [GetFolders] makes one [List] call for every mailbox (reference
    empty, pattern [*]) and returns the names in the order in which they
    were delivered; when the listing ends with an error the names already
    received are dropped and the error is returned, wrapped. *)
Theorem GetFolders_names_in_order :
  forall {World Conn Literal : Type} {IC : imap.Client World Conn Literal}
         (st : state World Conn) (cl : Conn)
         (mailboxes : list imap.MailboxInfo) (done : option error) (w' : World),
    client (self st) = Some cl ->
    imap.List cl "" "*" (server st) = (mailboxes, done, w') ->
    GetFolders st =
    (match done with
     | Some err => Err (wrapError "failed to list mailboxes" err)
     | None => Ok (map imap.Name mailboxes)
     end,
     {| self := self st; server := w';
        calls := calls st ++ [call_List cl "" "*"]; stdout := stdout st |}).
Proof.
  intros World Conn Literal IC st cl mailboxes done w' Hc Hl.
  unfold GetFolders, bind, get_self, client_List, call, ret.
  rewrite Hc, Hl. rewrite fold_left_snoc_map. destruct done; reflexivity.
Qed.

Lemma GetFolders_names_in_order_witness :
  GetFolders (Gateway.connected Gateway.healthy) =
  (Ok ["INBOX"; "Sent"; "Trash"],
   {| self := self (Gateway.connected Gateway.healthy);
      server := Gateway.healthy;
      calls := [call_List 7 "" "*"]; stdout := [] |}).
Proof.
  apply (GetFolders_names_in_order (Gateway.connected Gateway.healthy) 7
           (Gateway.folders Gateway.healthy) None Gateway.healthy);
    reflexivity.
Defined.

(** ** Further properties of the range fetches *)

(** X7.  When every record that the fetch of a page delivers carries its
    envelope and the fetch ends without error, the page holds one message
    per record, in the order of delivery, however many records the server
    sends: the ID is the sequence number in decimal, subject, date and flags
    are the record's, [From] is the first sender address (empty if there is
    none), [To] lists every recipient address in order; [TotalCount] is the
    count reported by the selection.  When a record comes without envelope
    the call panics and returns no page. *)
Theorem range_fetch_page_contents :
  forall (a : arch) {World Conn Literal : Type}
         {IC : imap.Client World Conn Literal}
         (st : state World Conn) (cl : Conn) (folder : string)
         (mbox : imap.MailboxStatus) (w' w'' : World) (page pageSize : Z)
         (msgs : list (imap.Message Literal)),
    client (self st) = Some cl ->
    imap.Select cl folder false (server st) = (Ok mbox, w') ->
    uint32 (page_offset a page pageSize) < imap.Messages mbox ->
    imap.Fetch cl
      (imap.AddRange imap.new_SeqSet
         (page_to a (imap.Messages mbox) page pageSize)
         (page_from a (imap.Messages mbox) page pageSize))
      [imap.FetchEnvelope; imap.FetchFlags] w' = (msgs, None, w'') ->
    (enveloped msgs ->
     exists messages,
       Forall2 (fun msg m => exists envelope,
                    imap.Envelope_ msg = Some envelope /\ m = listed msg envelope)
               msgs messages /\
       fst (GetFolderMessages a folder page pageSize st) =
         Returns (Ok {| folder_Messages := messages;
                        folder_TotalCount := imap.Messages mbox |}) /\
       (folder = "INBOX" ->
        fst (GetInbox a page pageSize st) =
          Returns (Ok {| inbox_Messages := messages;
                         inbox_TotalCount := imap.Messages mbox |}))) /\
    (~ enveloped msgs ->
     fst (GetFolderMessages a folder page pageSize st) = Panics nil_dereference /\
     (folder = "INBOX" ->
      fst (GetInbox a page pageSize st) = Panics nil_dereference)).
Proof.
  intros a World Conn Literal IC st cl folder mbox w' w'' page pageSize msgs
         Hc Hsel Hlt Hf.
  pose proof (GetFolderMessages_fetch a st cl mbox w' Hc folder page pageSize
                msgs None w'' Hsel Hlt Hf) as HF.
  split.
  - intro Henv.
    destruct (GetInbox_records_enveloped msgs Henv []) as (ms & Hms & Hall).
    exists ms. split; [exact Hall |]. split.
    + rewrite HF, Hms. reflexivity.
    + intros ->.
      rewrite (GetInbox_fetch a st cl mbox w' Hc page pageSize
                 msgs None w'' Hsel Hlt Hf), Hms.
      reflexivity.
  - intro Hnot.
    pose proof (GetInbox_records_outcome msgs []) as Hout.
    destruct (GetInbox_records msgs []) as [r | v] eqn:E; [now elim Hnot |].
    destruct Hout as [-> _]. split.
    + rewrite HF. reflexivity.
    + intros ->.
      rewrite (GetInbox_fetch a st cl mbox w' Hc page pageSize
                 msgs None w'' Hsel Hlt Hf), E.
      reflexivity.
Qed.

Lemma range_fetch_page_contents_witness :
  let msgs := [Script.record 25 []; Script.record 24 []] in
  let w := Script.serving 25 msgs None in
  (enveloped msgs ->
   exists messages,
     Forall2 (fun msg m => exists envelope,
                  imap.Envelope_ msg = Some envelope /\ m = listed msg envelope)
             msgs messages /\
     fst (GetFolderMessages arch64 "INBOX" 1 10 (Script.connected w)) =
       Returns (Ok {| folder_Messages := messages; folder_TotalCount := 25 |}) /\
     ("INBOX" = "INBOX" ->
      fst (GetInbox arch64 1 10 (Script.connected w)) =
        Returns (Ok {| inbox_Messages := messages; inbox_TotalCount := 25 |}))) /\
  (~ enveloped msgs ->
   fst (GetFolderMessages arch64 "INBOX" 1 10 (Script.connected w)) =
     Panics nil_dereference /\
   ("INBOX" = "INBOX" ->
    fst (GetInbox arch64 1 10 (Script.connected w)) = Panics nil_dereference)).
Proof.
  intros msgs w.
  apply (range_fetch_page_contents arch64 (Script.connected w) 1 "INBOX"
           {| imap.Messages := 25 |} w w 1 10 msgs);
    reflexivity.
Defined.

(** The page of the two records of the witness, and the panic on a record
    that carries flags only. *)
Example range_fetch_page_examples :
  fst (GetInbox arch64 1 10
         (Script.connected
            (Script.serving 25 [Script.record 25 []; Script.record 24 []] None))) =
    Returns (Ok {| inbox_Messages := [Script.entry 25; Script.entry 24];
                   inbox_TotalCount := 25 |}) /\
  fst (GetInbox arch64 1 10
         (Script.connected
            (Script.serving 25 [Script.record 25 []; Script.flags_only 24] None))) =
    Panics nil_dereference.
Proof. split; reflexivity. Qed.

(** X8.  Whatever the server answers, a page returned by a range fetch
    carries envelopes only: every message has size 0, an empty body and no
    attachment. *)
Theorem range_fetch_never_fills_body :
  forall (a : arch) {World Conn Literal : Type}
         {IC : imap.Client World Conn Literal}
         (st : state World Conn) (folder : string) (page pageSize : Z),
    let bare (m : Message) := Size m = 0 /\ Body m = "" /\ Attachments m = [] in
    match fst (GetInbox a page pageSize st) with
    | Returns (Ok r) => Forall bare (inbox_Messages r)
    | _ => True
    end /\
    match fst (GetFolderMessages a folder page pageSize st) with
    | Returns (Ok r) => Forall bare (folder_Messages r)
    | _ => True
    end.
Proof.
  intros a World Conn Literal IC st folder page pageSize bare.
  assert (Hb : forall (msgs : list (imap.Message Literal)) r,
             GetInbox_records msgs [] = Returns r -> Forall bare r).
  { intros msgs r Hr.
    pose proof (GetInbox_records_outcome msgs []) as Hout. rewrite Hr in Hout.
    destruct (GetInbox_records_enveloped msgs Hout []) as (ms & Hms & Hall).
    rewrite Hr in Hms. injection Hms as ->. cbn [app].
    clear Hr Hout. induction Hall as [| msg m msgs ms (envelope & _ & ->) _ IH];
      constructor; [repeat split | exact IH]. }
  unfold GetInbox, GetFolderMessages, bind, get_self, client_Select,
    client_Fetch, call, ret, Println.
  destruct (client (self st)) as [cl |]; [| cbn; auto].
  split.
  - destruct (imap.Select cl "INBOX" false (server st)) as [[mbox | e] w];
      [| cbn; auto].
    destruct (imap.Messages mbox =? 0); [cbn; constructor |].
    destruct (imap.Messages mbox <=? _); [cbn; constructor |].
    cbn [server]. destruct (imap.Fetch _ _ _ _) as [[msgs done] w''].
    destruct (GetInbox_records msgs []) as [r | v] eqn:E; [| exact I].
    destruct done; cbn; [exact I | exact (Hb msgs r E)].
  - destruct (imap.Select cl folder false (server st)) as [[mbox | e] w];
      [| cbn; auto].
    destruct (imap.Messages mbox =? 0); [cbn; constructor |].
    destruct (imap.Messages mbox <=? _); [cbn; constructor |].
    cbn [server]. destruct (imap.Fetch _ _ _ _) as [[msgs done] w''].
    pose proof (GetFolderMessages_records_eq msgs []) as Eq.
    destruct (GetFolderMessages_records msgs []) as [r | v]; [| exact I].
    destruct done; cbn; [exact I | exact (Hb msgs r (eq_sym Eq))].
Qed.

(** X9.  A selection that fails ends a range fetch: the error comes back
    wrapped ("failed to select inbox" from [GetInbox], "failed to select
    folder" from [GetFolderMessages]), the selection is the only library
    call and nothing is fetched or printed. *)
Theorem range_fetch_select_failure :
  forall (a : arch) {World Conn Literal : Type}
         {IC : imap.Client World Conn Literal}
         (st : state World Conn) (cl : Conn) (folder : string)
         (err : error) (w' : World) (page pageSize : Z),
    client (self st) = Some cl ->
    imap.Select cl folder false (server st) = (Err err, w') ->
    GetFolderMessages a folder page pageSize st =
      (Returns (Err (wrapError "failed to select folder" err)),
       selected st cl folder w') /\
    (folder = "INBOX" ->
     GetInbox a page pageSize st =
       (Returns (Err (wrapError "failed to select inbox" err)),
        selected st cl "INBOX" w')).
Proof.
  intros a World Conn Literal IC st cl folder err w' page pageSize Hc Hsel.
  split.
  - unfold GetFolderMessages, bind, get_self, client_Select, call, ret.
    rewrite Hc, Hsel. reflexivity.
  - intros ->.
    unfold GetInbox, bind, get_self, client_Select, call, ret.
    rewrite Hc, Hsel. reflexivity.
Qed.

Lemma range_fetch_select_failure_witness :
  let err := errorString "imap: no such mailbox" in
  let w := {| Script.login := None; Script.logout := None;
              Script.mailbox := Err err;
              Script.records := []; Script.fetched := None |} in
  GetFolderMessages arch64 "INBOX" 1 10 (Script.connected w) =
    (Returns (Err (wrapError "failed to select folder" err)),
     selected (Script.connected w) 1 "INBOX" w) /\
  ("INBOX" = "INBOX" ->
   GetInbox arch64 1 10 (Script.connected w) =
     (Returns (Err (wrapError "failed to select inbox" err)),
      selected (Script.connected w) 1 "INBOX" w)).
Proof.
  intros err w.
  apply (range_fetch_select_failure arch64 (Script.connected w) 1 "INBOX"
           err w 1 10);
    reflexivity.
Defined.

(** X10.  While [page * pageSize] stays below [2^32], consecutive pages
    tile the mailbox from the newest message down.  Page 1 ends at
    [totalCount].  A page that is followed by more messages holds exactly
    [pageSize] numbers and starts right above the end of the next page.  The
    page that reaches the bottom starts at 1 and the page after it is
    empty. *)
Theorem pages_tile_mailbox :
  forall (a : arch) (totalCount page pageSize : Z),
    is_uint32 totalCount ->
    1 <= page -> 1 <= pageSize -> page * pageSize < 2 ^ 32 ->
    (page - 1) * pageSize < totalCount ->
    page_from a totalCount 1 pageSize = totalCount /\
    (page * pageSize < totalCount ->
     page_to a totalCount page pageSize =
       page_from a totalCount (page + 1) pageSize + 1 /\
     page_from a totalCount page pageSize -
       page_to a totalCount page pageSize + 1 = pageSize) /\
    (totalCount <= page * pageSize ->
     page_to a totalCount page pageSize = 1 /\
     totalCount <= uint32 (page_offset a (page + 1) pageSize)).
Proof.
  intros a totalCount page pageSize Hu Hp Hs Hfit Hne.
  unfold is_uint32 in Hu.
  assert (Hoff : uint32 (page_offset a page pageSize) = (page - 1) * pageSize)
    by (apply uint32_page_offset_exact; nia).
  assert (Hnext : uint32 (page_offset a (page + 1) pageSize) = page * pageSize).
  { rewrite uint32_page_offset_exact; [ring | lia | lia |].
    replace (page + 1 - 1) with page by ring. exact Hfit. }
  assert (Hfirst : uint32 (page_offset a 1 pageSize) = 0).
  { rewrite uint32_page_offset. reflexivity. }
  destruct (range_arith totalCount ((page - 1) * pageSize) pageSize)
    as (Hf & Ht & _); [nia | lia | nia |].
  unfold page_to, page_from. rewrite Hoff, Hnext, Hfirst.
  split; [| split].
  - unfold sub32. rewrite Z.sub_0_r. apply uint32_small. lia.
  - intro Hmore. rewrite Ht, Hf.
    replace (pageSize <? totalCount - (page - 1) * pageSize) with true
      by (symmetry; apply Z.ltb_lt; lia).
    unfold sub32 at 1. rewrite (uint32_small (totalCount - page * pageSize)) by lia.
    split; ring.
  - intro Hlast. rewrite Ht, Hf.
    replace (pageSize <? totalCount - (page - 1) * pageSize) with false
      by (symmetry; apply Z.ltb_ge; lia).
    split; [reflexivity | exact Hlast].
Qed.

Lemma pages_tile_mailbox_witness :
  page_from arch64 25 1 10 = 25 /\
  (2 * 10 < 25 ->
   page_to arch64 25 2 10 = page_from arch64 25 (2 + 1) 10 + 1 /\
   page_from arch64 25 2 10 - page_to arch64 25 2 10 + 1 = 10) /\
  (25 <= 2 * 10 ->
   page_to arch64 25 2 10 = 1 /\
   25 <= uint32 (page_offset arch64 (2 + 1) 10)).
Proof.
  apply (pages_tile_mailbox arch64 25 2 10).
  - split; [vm_compute; discriminate | reflexivity].
  - vm_compute; discriminate.
  - vm_compute; discriminate.
  - reflexivity.
  - reflexivity.
Defined.

(** X11.  A first page at least as large as the mailbox asks for the whole
    mailbox: with [1 <= totalCount <= pageSize < 2^32], [GetInbox(1,
    pageSize)] and [GetFolderMessages(folder, 1, pageSize)] fetch the range
    [[1, totalCount]]. *)
Theorem first_page_covers_small_mailbox :
  forall (a : arch) {World Conn Literal : Type}
         {IC : imap.Client World Conn Literal}
         (st : state World Conn) (cl : Conn) (folder : string)
         (mbox : imap.MailboxStatus) (w' : World) (pageSize : Z),
    client (self st) = Some cl ->
    imap.Select cl folder false (server st) = (Ok mbox, w') ->
    1 <= imap.Messages mbox <= pageSize ->
    pageSize < 2 ^ 32 ->
    let issued :=
      (calls st ++
       [call_Select cl folder false;
        call_Fetch cl (imap.AddRange imap.new_SeqSet 1 (imap.Messages mbox))
                   [imap.FetchEnvelope; imap.FetchFlags]])%list in
    calls (snd (GetFolderMessages a folder 1 pageSize st)) = issued /\
    (folder = "INBOX" -> calls (snd (GetInbox a 1 pageSize st)) = issued).
Proof.
  intros a World Conn Literal IC st cl folder mbox w' pageSize Hc Hsel Hm Hs issued.
  assert (Hoff : uint32 (page_offset a 1 pageSize) = 0)
    by (rewrite uint32_page_offset; reflexivity).
  assert (Hlt : uint32 (page_offset a 1 pageSize) < imap.Messages mbox)
    by (rewrite Hoff; lia).
  assert (Hfrom : page_from a (imap.Messages mbox) 1 pageSize = imap.Messages mbox).
  { unfold page_from, sub32. rewrite Hoff, Z.sub_0_r. apply uint32_small. lia. }
  assert (Hto : page_to a (imap.Messages mbox) 1 pageSize = 1).
  { unfold page_to. rewrite Hfrom, (uint32_small pageSize) by lia.
    replace (pageSize <? imap.Messages mbox) with false
      by (symmetry; apply Z.ltb_ge; lia).
    reflexivity. }
  split.
  - destruct (imap.Fetch cl
                (imap.AddRange imap.new_SeqSet
                   (page_to a (imap.Messages mbox) 1 pageSize)
                   (page_from a (imap.Messages mbox) 1 pageSize))
                [imap.FetchEnvelope; imap.FetchFlags] w') as [[msgs done] w''] eqn:Hf.
    rewrite (GetFolderMessages_fetch a st cl mbox w' Hc folder 1 pageSize
               msgs done w'' Hsel Hlt Hf).
    unfold issued. cbn [snd fetched_page selected calls].
    rewrite Hto, Hfrom, <- app_assoc. reflexivity.
  - intros ->.
    destruct (imap.Fetch cl
                (imap.AddRange imap.new_SeqSet
                   (page_to a (imap.Messages mbox) 1 pageSize)
                   (page_from a (imap.Messages mbox) 1 pageSize))
                [imap.FetchEnvelope; imap.FetchFlags] w') as [[msgs done] w''] eqn:Hf.
    rewrite (GetInbox_fetch a st cl mbox w' Hc 1 pageSize
               msgs done w'' Hsel Hlt Hf).
    unfold issued. cbn [snd fetched_page selected calls].
    rewrite Hto, Hfrom, <- app_assoc. reflexivity.
Qed.

Lemma first_page_covers_small_mailbox_witness :
  let st := Script.connected (Script.serving 5 [] None) in
  let issued :=
    (calls st ++
     [call_Select 1 "INBOX" false;
      call_Fetch 1 (imap.AddRange imap.new_SeqSet 1 5)
                 [imap.FetchEnvelope; imap.FetchFlags]])%list in
  calls (snd (GetFolderMessages arch64 "INBOX" 1 50 st)) = issued /\
  ("INBOX" = "INBOX" -> calls (snd (GetInbox arch64 1 50 st)) = issued).
Proof.
  intro st.
  apply (first_page_covers_small_mailbox arch64 st 1 "INBOX"
           {| imap.Messages := 5 |} (Script.serving 5 [] None) 50).
  - reflexivity.
  - reflexivity.
  - split; vm_compute; discriminate.
  - reflexivity.
Defined.

(** ** Message identifiers *)

Lemma digit_of_range (c : ascii) (d : Z) : digit_of c = Some d -> 0 <= d <= 9.
Proof.
  unfold digit_of.
  destruct (48 <=? Z.of_nat (nat_of_ascii c)) eqn:E1; [| discriminate].
  destruct (Z.of_nat (nat_of_ascii c) <=? 57) eqn:E2; [| discriminate].
  cbn. intros [= <-]. apply Z.leb_le in E1, E2. lia.
Qed.

(** The digit loop never leaves the interval between its accumulator and
    [maxVal]. *)
Lemma parse_digits_bounds (maxVal : Z) (s : string) :
  forall n r, 0 <= n <= maxVal -> parse_digits maxVal s n = Ok r ->
              n <= r <= maxVal.
Proof.
  induction s as [| c s IH]; intros n r Hn H; cbn [parse_digits] in H.
  - injection H as <-. lia.
  - destruct (digit_of c) as [d |] eqn:Ed; [| discriminate].
    apply digit_of_range in Ed.
    destruct (maxVal <? n * 10 + d) eqn:El; [discriminate |].
    apply Z.ltb_ge in El.
    specialize (IH (n * 10 + d) r ltac:(lia) H). lia.
Qed.

(** A byte that is not a decimal digit makes the digit loop fail. *)
Lemma parse_digits_nondigit (maxVal : Z) (s : string) (c : ascii) :
  In c (list_ascii_of_string s) -> digit_of c = None ->
  forall n, exists e, parse_digits maxVal s n = Err e.
Proof.
  intros Hin Hc. induction s as [| c' s IH]; [now elim Hin |].
  intro n. cbn [parse_digits].
  destruct Hin as [-> | Hin].
  - rewrite Hc. eexists. reflexivity.
  - destruct (digit_of c') as [d |]; [| eexists; reflexivity].
    destruct (maxVal <? n * 10 + d); [eexists; reflexivity |].
    apply (IH Hin).
Qed.

Lemma of_uint_acc_ge (d : Decimal.uint) :
  forall acc, (acc <= Pos.of_uint_acc d acc)%positive.
Proof.
  induction d as [| d IH | d IH | d IH | d IH | d IH | d IH | d IH | d IH
                  | d IH | d IH]; intro acc; cbn [Pos.of_uint_acc];
    [lia | ..];
    match goal with
    | |- (_ <= Pos.of_uint_acc d ?x)%positive => specialize (IH x); lia
    end.
Qed.

(** The digit loop on the decimal digits [d], started from a positive
    accumulator, computes what [Pos.of_uint_acc] computes. *)
Lemma parse_digits_acc (maxVal : Z) (d : Decimal.uint) :
  forall acc,
    Zpos (Pos.of_uint_acc d acc) <= maxVal ->
    parse_digits maxVal (NilEmpty.string_of_uint d) (Zpos acc) =
    Ok (Zpos (Pos.of_uint_acc d acc)).
Proof.
  induction d as [| d IH | d IH | d IH | d IH | d IH | d IH | d IH | d IH
                  | d IH | d IH]; intros acc Hle;
    cbn [NilEmpty.string_of_uint parse_digits Pos.of_uint_acc] in *;
    [reflexivity | ..];
    match goal with
    | |- context [digit_of ?c] =>
        let v := eval vm_compute in (digit_of c) in
        change (digit_of c) with v; cbv iota beta zeta
    end;
    match type of Hle with
    | (Zpos (Pos.of_uint_acc d ?x) <= _) =>
        pose proof (of_uint_acc_ge d x) as Hge;
        match goal with
        | |- context [maxVal <? ?n1] =>
            replace n1 with (Zpos x) by lia;
            replace (maxVal <? Zpos x) with false
              by (symmetry; apply Z.ltb_ge; lia)
        end;
        apply (IH x Hle)
    end.
Qed.

Lemma parse_digits_of_uint (maxVal : Z) (d : Decimal.uint) :
  0 <= maxVal ->
  Z.of_N (Pos.of_uint d) <= maxVal ->
  parse_digits maxVal (NilEmpty.string_of_uint d) 0 = Ok (Z.of_N (Pos.of_uint d)).
Proof.
  intro Hm.
  induction d as [| d IH | d IH | d IH | d IH | d IH | d IH | d IH | d IH
                  | d IH | d IH]; intro Hle;
    cbn [NilEmpty.string_of_uint parse_digits Pos.of_uint] in *;
    [reflexivity | ..];
    match goal with
    | |- context [digit_of ?c] =>
        let v := eval vm_compute in (digit_of c) in
        change (digit_of c) with v; cbv iota beta zeta
    end;
    cbn [Z.mul Z.add];
    [ replace (maxVal <? 0) with false by (symmetry; apply Z.ltb_ge; lia);
      apply (IH Hle)
    | .. ];
    match type of Hle with
    | (Z.of_N (N.pos (Pos.of_uint_acc d ?x)) <= _) =>
        pose proof (of_uint_acc_ge d x) as Hge;
        cbn [Z.of_N] in *;
        replace (maxVal <? Zpos x) with false
          by (symmetry; apply Z.ltb_ge; lia);
        apply (parse_digits_acc maxVal d x Hle)
    end.
Qed.

(** [strconv.ParseUint] reads back what [%d] prints, for every value of a
    [uint32]. *)
Lemma ParseUint10_fmt_d (n : Z) :
  0 <= n < 2 ^ 32 -> ParseUint10 (fmt_d n) 32 = Ok n.
Proof.
  intro Hn. destruct n as [| p | p]; [reflexivity | | lia].
  unfold fmt_d. cbn [Z.to_int NilZero.string_of_int].
  pose proof (DecimalPos.Unsigned.to_uint_nonnil p) as Hnil.
  pose proof (DecimalPos.Unsigned.of_to p) as Hof.
  assert (Hs : NilZero.string_of_uint (Pos.to_uint p) =
               NilEmpty.string_of_uint (Pos.to_uint p))
    by (destruct (Pos.to_uint p); [now elim Hnil | reflexivity ..]).
  rewrite Hs.
  assert (Hp : parse_digits (2 ^ 32 - 1)
                 (NilEmpty.string_of_uint (Pos.to_uint p)) 0 = Ok (Zpos p)).
  { rewrite parse_digits_of_uint; rewrite ?Hof; cbn [Z.of_N]; [reflexivity | lia | lia]. }
  unfold ParseUint10. rewrite Hp.
  destruct (NilEmpty.string_of_uint (Pos.to_uint p)) eqn:E; [| reflexivity].
  destruct (Pos.to_uint p); [now elim Hnil | discriminate E ..].
Qed.

(** What the digit loop returns on the digits [d] is their value. *)
Lemma parse_digits_acc_value (maxVal : Z) (d : Decimal.uint) :
  forall acc r,
    parse_digits maxVal (NilEmpty.string_of_uint d) (Zpos acc) = Ok r ->
    r = Zpos (Pos.of_uint_acc d acc).
Proof.
  induction d as [| d IH | d IH | d IH | d IH | d IH | d IH | d IH | d IH
                  | d IH | d IH]; intros acc r H;
    cbn [NilEmpty.string_of_uint parse_digits Pos.of_uint_acc] in *;
    [now injection H as <- | ..];
    match type of H with
    | context [digit_of ?c] =>
        let v := eval vm_compute in (digit_of c) in
        change (digit_of c) with v in H; cbv iota beta zeta in H
    end;
    match type of H with
    | context [maxVal <? ?n1] =>
        destruct (maxVal <? n1); [discriminate H |];
        match goal with
        | |- _ = Zpos (Pos.of_uint_acc d ?x) =>
            replace n1 with (Zpos x) in H by lia; exact (IH x r H)
        end
    end.
Qed.

Lemma parse_digits_of_uint_value (maxVal : Z) (d : Decimal.uint) :
  forall r,
    parse_digits maxVal (NilEmpty.string_of_uint d) 0 = Ok r ->
    r = Z.of_N (Pos.of_uint d).
Proof.
  induction d as [| d IH | d IH | d IH | d IH | d IH | d IH | d IH | d IH
                  | d IH | d IH]; intros r H;
    cbn [NilEmpty.string_of_uint parse_digits Pos.of_uint] in *;
    [now injection H as <- | ..];
    match type of H with
    | context [digit_of ?c] =>
        let v := eval vm_compute in (digit_of c) in
        change (digit_of c) with v in H; cbv iota beta zeta in H
    end;
    cbn [Z.mul Z.add] in H;
    match type of H with
    | context [maxVal <? ?n1] => destruct (maxVal <? n1); [discriminate H |]
    end;
    [exact (IH r H) | ..];
    cbn [Z.of_N]; exact (parse_digits_acc_value maxVal d _ r H).
Qed.

(** X12.  The ID that a range fetch gives to a record leads back to that
    record.  For a record that is listed (it carries its envelope) and whose
    sequence number is in the range of [uint32], the ID of the listed
    message parses back to the number, and [GetEmailByID] with that ID
    selects the folder and then fetches exactly that sequence number,
    whenever it returns or panics. *)
Theorem listed_id_fetches_its_record :
  forall {World Conn Literal Reader : Type}
         {IC : imap.Client World Conn Literal}
         {MD : mail.Decoder Literal Reader}
         (st : state World Conn) (cl : Conn) (folder : string)
         (record : imap.Message Literal) (m : Message) (fuel : nat),
    client (self st) = Some cl ->
    is_uint32 (imap.SeqNum record) ->
    GetInbox_message record = Returns m ->
    let id := ID m in
    let name := if (folder =? "")%string then "INBOX" else folder in
    GetFolderMessages_message record = Returns m /\
    ParseUint10 id 32 = Ok (imap.SeqNum record) /\
    match GetEmailByID fuel id folder st with
    | None => True
    | Some (_, st') =>
        calls st' =
          (calls st ++
           call_Select cl name false ::
           match fst (imap.Select cl name false (server st)) with
           | Ok _ =>
               [call_Fetch cl (imap.AddNum imap.new_SeqSet (imap.SeqNum record))
                           [imap.FetchEnvelope; imap.FetchFlags;
                            imap.FetchBodyStructure; imap.FetchRFC822Size;
                            "BODY[]"]]
           | Err _ => []
           end)%list
    end.
Proof.
  intros World Conn Literal Reader IC MD st cl folder record m fuel Hc Hu Hm
         id name.
  assert (Hid : id = fmt_d (imap.SeqNum record)).
  { rewrite GetInbox_message_listed in Hm.
    destruct (imap.Envelope_ record); [| discriminate Hm].
    injection Hm as <-. reflexivity. }
  assert (Hp : ParseUint10 id 32 = Ok (imap.SeqNum record))
    by (rewrite Hid; apply ParseUint10_fmt_d; exact Hu).
  split; [exact Hm |]. split; [exact Hp |].
  unfold GetEmailByID, Println, client_Select, client_Fetch, call.
  rewrite Hc, Hp. fold name. cbn [server].
  destruct (imap.Select cl name false (server st)) as [[mbox | e] w] eqn:Hsel.
  - cbn [server fst]. rewrite (uint32_small _ Hu).
    destruct (imap.Fetch _ _ _ _) as [[msgs done] w''].
    destruct (GetEmailByID_records fuel msgs None) as [[message | v] |];
      [| | exact I].
    + destruct done as [err |]; [| destruct message];
        cbn [calls]; rewrite <- app_assoc; reflexivity.
    + cbn [calls]. rewrite <- app_assoc. reflexivity.
  - reflexivity.
Qed.

Lemma listed_id_fetches_its_record_witness :
  let record := Script.record 24 [] in
  let w := Script.serving 25 [Script.record 24 [Some Script.three_parts]] None in
  GetFolderMessages_message record = Returns (Script.entry 24) /\
  ParseUint10 "24" 32 = Ok 24 /\
  match GetEmailByID 4 "24" "" (Script.connected w) with
  | None => True
  | Some (_, st') =>
      calls st' =
        [call_Select 1 "INBOX" false;
         call_Fetch 1 (imap.AddNum imap.new_SeqSet 24)
                    [imap.FetchEnvelope; imap.FetchFlags;
                     imap.FetchBodyStructure; imap.FetchRFC822Size; "BODY[]"]]
  end.
Proof.
  intros record w.
  assert (Hu : is_uint32 (imap.SeqNum record))
    by (split; [vm_compute; discriminate | reflexivity]).
  exact (listed_id_fetches_its_record (Script.connected w) 1 "" record
           (Script.entry 24) 4 eq_refl Hu eq_refl).
Defined.

(** On decimal digits the digit loop can only fail by range. *)
Lemma parse_digits_digits_error (maxVal : Z) (d : Decimal.uint) :
  forall n e,
    parse_digits maxVal (NilEmpty.string_of_uint d) n = Err e -> e = ErrRange.
Proof.
  induction d as [| d IH | d IH | d IH | d IH | d IH | d IH | d IH | d IH
                  | d IH | d IH]; intros n e H;
    cbn [NilEmpty.string_of_uint parse_digits] in H;
    [discriminate H | ..];
    match type of H with
    | context [digit_of ?c] =>
        let v := eval vm_compute in (digit_of c) in
        change (digit_of c) with v in H; cbv iota beta zeta in H
    end;
    match type of H with
    | context [maxVal <? ?n1] =>
        destruct (maxVal <? n1);
        [now injection H as <- | exact (IH _ e H)]
    end.
Qed.

(** X13.  An [id] that is empty or contains a byte that is not a decimal
    digit (a sign, a blank, a letter) is refused by [GetEmailByID] as an
    invalid ID, with the state untouched: nothing is selected or fetched. *)
Theorem GetEmailByID_rejects_non_digits :
  forall {World Conn Literal Reader : Type}
         {IC : imap.Client World Conn Literal}
         {MD : mail.Decoder Literal Reader}
         (st : state World Conn) (cl : Conn) (id folder : string) (fuel : nat),
    client (self st) = Some cl ->
    id = "" \/ (exists c, In c (list_ascii_of_string id) /\ digit_of c = None) ->
    exists e,
      GetEmailByID fuel id folder st =
      Some (Returns (Err (InvalidID (NumError "ParseUint" id e))), st).
Proof.
  intros World Conn Literal Reader IC MD st cl id folder fuel Hc Hid.
  assert (Hp : exists e, ParseUint10 id 32 = Err (NumError "ParseUint" id e)).
  { destruct Hid as [-> | (c & Hin & Hd)].
    - eexists. reflexivity.
    - destruct (parse_digits_nondigit (2 ^ 32 - 1) id c Hin Hd 0) as [e He].
      exists e. unfold ParseUint10. rewrite He.
      destruct id; [now elim Hin | reflexivity]. }
  destruct Hp as [e Hp]. exists e.
  unfold GetEmailByID. rewrite Hc, Hp. reflexivity.
Qed.

Lemma GetEmailByID_rejects_non_digits_witness :
  exists e,
    GetEmailByID 0 "+12" "INBOX" (Script.connected (Script.serving 25 [] None)) =
    Some (Returns (Err (InvalidID (NumError "ParseUint" "+12" e))),
          Script.connected (Script.serving 25 [] None)).
Proof.
  apply (GetEmailByID_rejects_non_digits
           (Script.connected (Script.serving 25 [] None)) 1 "+12" "INBOX" 0).
  - reflexivity.
  - right. exists "+"%char. split; [left; reflexivity | reflexivity].
Defined.

(** X14.  A decimal number of [2^32] or more is refused as an ID with a
    range error, again before anything is selected or fetched. *)
Theorem GetEmailByID_rejects_large_numbers :
  forall {World Conn Literal Reader : Type}
         {IC : imap.Client World Conn Literal}
         {MD : mail.Decoder Literal Reader}
         (st : state World Conn) (cl : Conn) (n : Z) (folder : string)
         (fuel : nat),
    client (self st) = Some cl ->
    2 ^ 32 <= n ->
    GetEmailByID fuel (fmt_d n) folder st =
    Some (Returns (Err (InvalidID (NumError "ParseUint" (fmt_d n) ErrRange))), st).
Proof.
  intros World Conn Literal Reader IC MD st cl n folder fuel Hc Hn.
  destruct n as [| p | p]; [lia | | lia].
  assert (Hp : ParseUint10 (fmt_d (Zpos p)) 32 =
               Err (NumError "ParseUint" (fmt_d (Zpos p)) ErrRange)).
  { unfold fmt_d. cbn [Z.to_int NilZero.string_of_int].
    pose proof (DecimalPos.Unsigned.to_uint_nonnil p) as Hnil.
    pose proof (DecimalPos.Unsigned.of_to p) as Hof.
    assert (Hs : NilZero.string_of_uint (Pos.to_uint p) =
                 NilEmpty.string_of_uint (Pos.to_uint p))
      by (destruct (Pos.to_uint p); [now elim Hnil | reflexivity ..]).
    rewrite Hs.
    assert (Hd : parse_digits (2 ^ 32 - 1)
                   (NilEmpty.string_of_uint (Pos.to_uint p)) 0 = Err ErrRange).
    { destruct (parse_digits (2 ^ 32 - 1)
                  (NilEmpty.string_of_uint (Pos.to_uint p)) 0) as [r | e] eqn:E.
      - pose proof (parse_digits_of_uint_value _ _ _ E) as Hv.
        rewrite Hof in Hv. cbn [Z.of_N] in Hv.
        pose proof (parse_digits_bounds (2 ^ 32 - 1) _ 0 r ltac:(lia) E). lia.
      - now rewrite (parse_digits_digits_error _ _ _ _ E). }
    unfold ParseUint10. rewrite Hd.
    destruct (NilEmpty.string_of_uint (Pos.to_uint p)) eqn:E; [| reflexivity].
    destruct (Pos.to_uint p); [now elim Hnil | discriminate E ..]. }
  unfold GetEmailByID. rewrite Hc, Hp. reflexivity.
Qed.

Lemma GetEmailByID_rejects_large_numbers_witness :
  GetEmailByID 0 "4294967296" "INBOX"
    (Script.connected (Script.serving 25 [] None)) =
  Some (Returns (Err (InvalidID (NumError "ParseUint" "4294967296" ErrRange))),
        Script.connected (Script.serving 25 [] None)).
Proof.
  exact (GetEmailByID_rejects_large_numbers
           (Script.connected (Script.serving 25 [] None)) 1 (2 ^ 32) "INBOX" 0
           eq_refl (Z.le_refl _)).
Defined.

(** X15.  Every ID that is accepted is a number below [2^32], so the
    conversion [uint32(seqNum)] of line 332 keeps its value: the number
    fetched is the number written in the ID. *)
Theorem accepted_id_fits_uint32 :
  forall (id : string) (seqNum : Z),
    ParseUint10 id 32 = Ok seqNum ->
    is_uint32 seqNum /\ uint32 seqNum = seqNum.
Proof.
  intros id seqNum H.
  assert (Hr : 0 <= seqNum <= 2 ^ 32 - 1).
  { unfold ParseUint10 in H. destruct id as [| c s]; [discriminate H |].
    destruct (parse_digits (2 ^ 32 - 1) (String c s) 0) as [r | e] eqn:E;
      [| discriminate H].
    injection H as <-.
    apply (parse_digits_bounds (2 ^ 32 - 1) (String c s) 0 r); [lia | exact E]. }
  assert (Hu : is_uint32 seqNum) by (unfold is_uint32; lia).
  split; [exact Hu | apply uint32_small; exact Hu].
Qed.

Lemma accepted_id_fits_uint32_witness :
  is_uint32 4294967295 /\ uint32 4294967295 = 4294967295.
Proof.
  apply (accepted_id_fits_uint32 "0004294967295" 4294967295).
  reflexivity.
Defined.

(** ** Further properties of the single-message fetch *)

Section SingleFetch.

Context {World Conn Literal Reader : Type}.
Context {IC : imap.Client World Conn Literal}.
Context {MD : mail.Decoder Literal Reader}.

Lemma keeps_envelope_refl (m : Message) : keeps_envelope m m.
Proof.
  unfold keeps_envelope. repeat split. exists []. now rewrite app_nil_r.
Qed.

Lemma keeps_envelope_trans (m1 m2 m3 : Message) :
  keeps_envelope m1 m2 -> keeps_envelope m2 m3 -> keeps_envelope m1 m3.
Proof.
  unfold keeps_envelope.
  intros (A1 & A2 & A3 & A4 & A5 & A6 & A7 & x & A8)
         (B1 & B2 & B3 & B4 & B5 & B6 & B7 & y & B8).
  repeat split; try congruence.
  exists (x ++ y)%list. rewrite B8, A8, app_assoc. reflexivity.
Qed.

Lemma part_keeps_envelope (m : Message) (p : mail.Part) :
  keeps_envelope m (GetEmailByID_part m p).
Proof.
  unfold GetEmailByID_part, keeps_envelope.
  destruct (mail.Header p) as [| h |]; cbn; repeat split.
  - exists []. now rewrite app_nil_r.
  - eexists. reflexivity.
  - exists []. now rewrite app_nil_r.
Qed.

Lemma parts_keep_envelope (fuel : nat) :
  forall (mr : Reader) (m m' : Message),
    GetEmailByID_parts fuel mr m = Some m' -> keeps_envelope m m'.
Proof.
  induction fuel as [| fuel IH]; intros mr m m' H; [discriminate H |].
  cbn [GetEmailByID_parts] in H.
  destruct (mail.NextPart mr) as [[| err | p] mr'].
  - injection H as <-. apply keeps_envelope_refl.
  - exact (IH mr' m m' H).
  - apply (keeps_envelope_trans m (GetEmailByID_part m p) m').
    + apply part_keeps_envelope.
    + exact (IH mr' _ m' H).
Qed.

Lemma literals_keep_envelope (fuel : nat) (literals : list Literal) :
  forall (m m' : Message),
    GetEmailByID_literals fuel literals m = Some m' -> keeps_envelope m m'.
Proof.
  induction literals as [| literal rest IH]; intros m m' H;
    cbn [GetEmailByID_literals] in H.
  - injection H as <-. apply keeps_envelope_refl.
  - destruct (mail.CreateReader literal) as [mr | e]; [| exact (IH m m' H)].
    destruct (GetEmailByID_parts fuel mr m) as [m1 |] eqn:E; [| discriminate H].
    apply (keeps_envelope_trans m m1 m').
    + exact (parts_keep_envelope fuel mr m m1 E).
    + exact (IH m1 m' H).
Qed.

(** How [GetEmailByID] ends once the mailbox is selected and the records
    [msgs] and the deferred error [done] are in. *)
Lemma GetEmailByID_fetch (st : state World Conn) (cl : Conn)
      (id folder : string) (seqNum : Z) (mbox : imap.MailboxStatus)
      (w' w'' : World) (msgs : list (imap.Message Literal))
      (done : option error) (fuel : nat) :
  client (self st) = Some cl ->
  ParseUint10 id 32 = Ok seqNum ->
  let name := if (folder =? "")%string then "INBOX" else folder in
  let items := [imap.FetchEnvelope; imap.FetchFlags; imap.FetchBodyStructure;
                imap.FetchRFC822Size; "BODY[]"] in
  let seqSet := imap.AddNum imap.new_SeqSet (uint32 seqNum) in
  imap.Select cl name false (server st) = (Ok mbox, w') ->
  imap.Fetch cl seqSet items w' = (msgs, done, w'') ->
  GetEmailByID fuel id folder st =
  match GetEmailByID_records fuel msgs None with
  | None => None
  | Some ended =>
      Some (match ended with
            | Panics v => Panics v
            | Returns message =>
                Returns match done with
                        | Some err => Err (wrapError "failed to fetch message" err)
                        | None => match message with
                                  | None => Err (NotFound id)
                                  | Some message => Ok message
                                  end
                        end
            end,
            {| self := self st; server := w'';
               calls := calls st ++ [call_Select cl name false;
                                     call_Fetch cl seqSet items];
               stdout := stdout st ++
                         ["Selecting folder for email ID " ++ id ++ " : " ++ name] |})
  end.
Proof.
  intros Hc Hp name items seqSet Hsel Hf.
  unfold GetEmailByID, Println, client_Select, client_Fetch, call.
  rewrite Hc, Hp. fold name. cbn [server]. rewrite Hsel. fold seqSet items.
  cbn [server]. rewrite Hf.
  destruct (GetEmailByID_records fuel msgs None) as [[message | v] |];
    [| | reflexivity]; cbn [calls self stdout]; rewrite <- app_assoc.
  - destruct done; [| destruct message]; reflexivity.
  - reflexivity.
Qed.

(** The record loop over records that are all built keeps the message of
    the last record. *)
Lemma records_last (fuel : nat) (msgs : list (imap.Message Literal)) :
  forall (msg : imap.Message Literal) (m : Message) (acc : option Message),
    Forall (fun x => exists mx, GetEmailByID_message fuel x = Some (Returns mx))
           msgs ->
    GetEmailByID_message fuel msg = Some (Returns m) ->
    GetEmailByID_records fuel (msgs ++ [msg]) acc = Some (Returns (Some m)).
Proof.
  induction msgs as [| x msgs IH]; intros msg m acc Hall Hm.
  - cbn. rewrite Hm. reflexivity.
  - inversion Hall as [| ? ? (mx & Hx) Hrest]; subst.
    cbn [app GetEmailByID_records]. rewrite Hx.
    exact (IH msg m (Some mx) Hrest Hm).
Qed.

(** A record is built exactly when it carries its envelope and the walk
    of its body literals ends. *)
Lemma GetEmailByID_message_returns (fuel : nat) (msg : imap.Message Literal)
      (m : Message) :
  GetEmailByID_message fuel msg = Some (Returns m) ->
  exists envelope,
    imap.Envelope_ msg = Some envelope /\
    GetEmailByID_literals fuel (imap.Body msg)
      (set_To
         (match imap.From envelope with
          | addr :: _ =>
              set_From
                {| ID := fmt_d (imap.SeqNum msg);
                   Subject := imap.Subject envelope;
                   Date := imap.Date envelope;
                   Flags := imap.Flags msg;
                   From := ""; To := []; Size := imap.Size msg; Body := "";
                   Attachments := [] |} (imap.Address_ addr)
          | [] =>
              {| ID := fmt_d (imap.SeqNum msg);
                 Subject := imap.Subject envelope;
                 Date := imap.Date envelope;
                 Flags := imap.Flags msg;
                 From := ""; To := []; Size := imap.Size msg; Body := "";
                 Attachments := [] |}
          end)
         (map imap.Address_ (imap.To envelope))) = Some m.
Proof.
  unfold GetEmailByID_message. intro H.
  destruct (imap.Envelope_ msg) as [envelope |]; [| discriminate H].
  exists envelope. split; [reflexivity |].
  rewrite fold_set_To_eq in H.
  destruct (imap.From envelope) as [| addr rest]; cbn [To set_From app] in H |- *;
    match type of H with
    | option_map _ ?x = _ => destruct x as [m' |]; [| discriminate H]
    end;
    injection H as <-; reflexivity.
Qed.

End SingleFetch.

(** X16.  When the fetch of one number delivers several records, the
    message returned is the one built from the last record alone, provided
    every record is built: each carries its envelope and the walk of its
    body ends.  Nothing of the earlier records is kept. *)
Theorem last_record_wins :
  forall {World Conn Literal Reader : Type}
         {IC : imap.Client World Conn Literal}
         {MD : mail.Decoder Literal Reader}
         (st : state World Conn) (cl : Conn) (id folder : string) (seqNum : Z)
         (mbox : imap.MailboxStatus) (w' w'' : World)
         (msgs : list (imap.Message Literal)) (msg : imap.Message Literal)
         (m : Message) (fuel : nat),
    client (self st) = Some cl ->
    ParseUint10 id 32 = Ok seqNum ->
    let name := if (folder =? "")%string then "INBOX" else folder in
    imap.Select cl name false (server st) = (Ok mbox, w') ->
    imap.Fetch cl (imap.AddNum imap.new_SeqSet (uint32 seqNum))
      [imap.FetchEnvelope; imap.FetchFlags; imap.FetchBodyStructure;
       imap.FetchRFC822Size; "BODY[]"] w' = ((msgs ++ [msg])%list, None, w'') ->
    Forall (fun x => exists mx, GetEmailByID_message fuel x = Some (Returns mx))
           msgs ->
    GetEmailByID_message fuel msg = Some (Returns m) ->
    option_map fst (GetEmailByID fuel id folder st) = Some (Returns (Ok m)).
Proof.
  intros World Conn Literal Reader IC MD st cl id folder seqNum mbox w' w''
         msgs msg m fuel Hc Hp name Hsel Hf Hall Hm.
  rewrite (GetEmailByID_fetch st cl id folder seqNum mbox w' w''
             (msgs ++ [msg]) None fuel Hc Hp Hsel Hf).
  rewrite (records_last fuel msgs msg m None Hall Hm). reflexivity.
Qed.

Lemma last_record_wins_witness :
  let w := Script.serving 25 [Script.record 7 [Some Script.three_parts];
                              Script.record 7 []] None in
  option_map fst (GetEmailByID 4 "7" "" (Script.connected w)) =
  Some (Returns
          (Ok {| ID := "7"; Subject := "hello"; Date := 1700000000;
                 Flags := ["\Seen"]; From := "alice@example.org";
                 To := ["bob@example.org"; "carol@example.org"];
                 Size := 120; Body := ""; Attachments := [] |})).
Proof.
  intro w.
  apply (last_record_wins (Script.connected w) 1 "7" "" 7
           {| imap.Messages := 25 |} w w
           [Script.record 7 [Some Script.three_parts]] (Script.record 7 [])).
  - reflexivity.
  - reflexivity.
  - reflexivity.
  - reflexivity.
  - repeat constructor. eexists. reflexivity.
  - reflexivity.
Defined.

(** A record without envelope among the records of a single-message fetch
    makes the call panic, whatever the other records hold. *)
Example single_fetch_flags_only_panics :
  option_map fst
    (GetEmailByID 4 "7" ""
       (Script.connected
          (Script.serving 25 [Script.record 7 [Some Script.three_parts];
                              Script.flags_only 7] None))) =
  Some (Panics nil_dereference).
Proof. reflexivity. Qed.

(** X17.  The single-message fetch fails whole as well: when every
    delivered record is built (each carries its envelope and the walk of
    its body ends) and the fetch then ends with an error, the error is
    returned, wrapped, and the message built from the records is dropped. *)
Theorem single_fetch_error_discards_message :
  forall {World Conn Literal Reader : Type}
         {IC : imap.Client World Conn Literal}
         {MD : mail.Decoder Literal Reader}
         (st : state World Conn) (cl : Conn) (id folder : string) (seqNum : Z)
         (mbox : imap.MailboxStatus) (w' w'' : World)
         (msgs : list (imap.Message Literal)) (err : error) (fuel : nat),
    client (self st) = Some cl ->
    ParseUint10 id 32 = Ok seqNum ->
    let name := if (folder =? "")%string then "INBOX" else folder in
    imap.Select cl name false (server st) = (Ok mbox, w') ->
    imap.Fetch cl (imap.AddNum imap.new_SeqSet (uint32 seqNum))
      [imap.FetchEnvelope; imap.FetchFlags; imap.FetchBodyStructure;
       imap.FetchRFC822Size; "BODY[]"] w' = (msgs, Some err, w'') ->
    Forall (fun x => exists mx, GetEmailByID_message fuel x = Some (Returns mx))
           msgs ->
    option_map fst (GetEmailByID fuel id folder st) =
    Some (Returns (Err (wrapError "failed to fetch message" err))).
Proof.
  intros World Conn Literal Reader IC MD st cl id folder seqNum mbox w' w''
         msgs err fuel Hc Hp name Hsel Hf Hall.
  rewrite (GetEmailByID_fetch st cl id folder seqNum mbox w' w''
             msgs (Some err) fuel Hc Hp Hsel Hf).
  assert (Hrec : forall acc, exists message,
             GetEmailByID_records fuel msgs acc = Some (Returns message)).
  { clear Hf. induction Hall as [| x msgs (mx & Hx) _ IH]; intro acc.
    - exists acc. reflexivity.
    - cbn [GetEmailByID_records]. rewrite Hx. apply IH. }
  destruct (Hrec None) as [message ->]. reflexivity.
Qed.

Lemma single_fetch_error_discards_message_witness :
  let err := errorString "imap: connection closed" in
  let w := Script.serving 25 [Script.record 7 [Some Script.three_parts]]
                          (Some err) in
  option_map fst (GetEmailByID 4 "7" "INBOX" (Script.connected w)) =
  Some (Returns (Err (wrapError "failed to fetch message" err))).
Proof.
  intros err w.
  apply (single_fetch_error_discards_message (Script.connected w) 1 "7" "INBOX" 7
           {| imap.Messages := 25 |} w w
           [Script.record 7 [Some Script.three_parts]] err 4).
  - reflexivity.
  - reflexivity.
  - reflexivity.
  - reflexivity.
  - repeat constructor. eexists. reflexivity.
Defined.

(** X18.  A body literal that cannot be opened is passed over: the walk
    of the literals gives what it gives without that literal, whatever
    stands before and after it. *)
Theorem unopenable_literal_is_skipped :
  forall {Literal Reader : Type} {MD : mail.Decoder Literal Reader}
         (before after : list Literal) (bad : Literal) (e : error)
         (message : Message) (fuel : nat),
    mail.CreateReader bad = Err e ->
    GetEmailByID_literals fuel (before ++ bad :: after) message =
    GetEmailByID_literals fuel (before ++ after) message.
Proof.
  intros Literal Reader MD before after bad e message fuel Hbad.
  revert message.
  induction before as [| l before IH]; intro message; cbn [app GetEmailByID_literals].
  - rewrite Hbad. reflexivity.
  - destruct (mail.CreateReader l) as [mr | e']; [| apply IH].
    destruct (GetEmailByID_parts fuel mr message); [apply IH | reflexivity].
Qed.

Lemma unopenable_literal_is_skipped_witness :
  let message := Script.entry 7 in
  GetEmailByID_literals 4 ([Some Script.three_parts] ++ None :: []) message =
  GetEmailByID_literals 4 ([Some Script.three_parts] ++ []) message.
Proof.
  intro message.
  apply (unopenable_literal_is_skipped [Some Script.three_parts] [] None
           (errorString "mail: malformed message") message 4).
  reflexivity.
Defined.

(** X19.  No body can change the envelope: whatever the decoder makes of
    the body literals, a message built from a record has the record's
    sequence number as ID, its flags and size, the subject and date of its
    envelope, the first sender address as [From] (empty if there is none)
    and all recipient addresses in order as [To]. *)
Theorem single_fetch_envelope_fields :
  forall {Literal Reader : Type} {MD : mail.Decoder Literal Reader}
         (msg : imap.Message Literal) (m : Message) (fuel : nat),
    GetEmailByID_message fuel msg = Some (Returns m) ->
    exists envelope,
      imap.Envelope_ msg = Some envelope /\
      ID m = fmt_d (imap.SeqNum msg) /\
      Subject m = imap.Subject envelope /\
      Date m = imap.Date envelope /\
      Flags m = imap.Flags msg /\
      From m = match imap.From envelope with
               | addr :: _ => imap.MailboxName addr ++ "@" ++ imap.HostName addr
               | [] => ""
               end /\
      To m = map (fun addr => imap.MailboxName addr ++ "@" ++ imap.HostName addr)
                 (imap.To envelope) /\
      Size m = imap.Size msg.
Proof.
  intros Literal Reader MD msg m fuel H.
  destruct (GetEmailByID_message_returns fuel msg m H) as (envelope & He & Hl).
  exists envelope. split; [exact He |].
  apply literals_keep_envelope in Hl.
  destruct Hl as (H1 & H2 & H3 & H4 & H5 & H6 & H7 & _).
  rewrite H1, H2, H3, H4, H5, H6, H7.
  destruct (imap.From envelope); repeat split.
Qed.

Lemma single_fetch_envelope_fields_witness :
  let msg := Script.record 7 [Some Script.three_parts] in
  let m := {| ID := "7"; Subject := "hello"; Date := 1700000000;
              Flags := ["\Seen"]; From := "alice@example.org";
              To := ["bob@example.org"; "carol@example.org"];
              Size := 120; Body := "text";
              Attachments :=
                [{| Filename := "a.bin"; Content := list_byte_of_string "AAA";
                    MimeType := "application/octet-stream" |};
                 {| Filename := "b.bin"; Content := list_byte_of_string "BBB";
                    MimeType := "application/octet-stream" |}] |} in
  exists envelope,
    imap.Envelope_ msg = Some envelope /\
    ID m = fmt_d (imap.SeqNum msg) /\
    Subject m = imap.Subject envelope /\
    Date m = imap.Date envelope /\
    Flags m = imap.Flags msg /\
    From m = match imap.From envelope with
             | addr :: _ => imap.MailboxName addr ++ "@" ++ imap.HostName addr
             | [] => ""
             end /\
    To m = map (fun addr => imap.MailboxName addr ++ "@" ++ imap.HostName addr)
               (imap.To envelope) /\
    Size m = imap.Size msg.
Proof.
  intros msg m.
  apply (single_fetch_envelope_fields msg m 4).
  reflexivity.
Defined.

Lemma last_app_default {A} (l1 l2 : list A) :
  forall d, last (l1 ++ l2) d = last l2 (last l1 d).
Proof.
  induction l1 as [| x l1 IH]; intro d; [reflexivity |].
  change ((x :: l1) ++ l2)%list with (x :: (l1 ++ l2))%list.
  rewrite !last_cons_default. apply IH.
Qed.

Lemma inline_contents_app (evs1 evs2 : list mail.next) :
  inline_contents (evs1 ++ evs2) =
  (inline_contents evs1 ++ inline_contents evs2)%list.
Proof.
  induction evs1 as [| ev evs1 IH]; [reflexivity |].
  cbn [app inline_contents].
  destruct ev as [| err | p]; [exact IH | exact IH |].
  destruct (mail.Header p); [cbn; now rewrite IH | exact IH | exact IH].
Qed.

Lemma attachment_parts_app (evs1 evs2 : list mail.next) :
  attachment_parts (evs1 ++ evs2) =
  (attachment_parts evs1 ++ attachment_parts evs2)%list.
Proof.
  induction evs1 as [| ev evs1 IH]; [reflexivity |].
  cbn [app attachment_parts].
  destruct ev as [| err | p]; [exact IH | exact IH |].
  destruct (mail.Header p); [exact IH | cbn; now rewrite IH | exact IH].
Qed.

(** X20.  Several body literals are walked one after the other into the
    same message: when each literal opens and its reader delivers its
    outcomes and then the end, the body is the content of the last inline
    part of the last literal that has one, and the attachments of all
    literals follow one another in the order of the literals. *)
Theorem literals_accumulate :
  forall {Literal Reader : Type} {MD : mail.Decoder Literal Reader}
         (fuel : nat) (literals : list Literal) (evss : list (list mail.next))
         (message : Message),
    Forall2 (fun literal evs =>
               exists mr, mail.CreateReader literal = Ok mr /\
                          delivers mr evs /\ (List.length evs < fuel)%nat)
            literals evss ->
    GetEmailByID_literals fuel literals message =
    Some (set_Attachments
            (set_Body message
               (last (inline_contents (List.concat evss)) (Body message)))
            (Attachments message ++ attachment_parts (List.concat evss))).
Proof.
  intros Literal Reader MD fuel literals evss message H. revert message.
  induction H as [| literal evs literals evss (mr & Hr & Hd & Hlen) _ IH];
    intro message; cbn [GetEmailByID_literals List.concat].
  - cbn. rewrite app_nil_r. destruct message; reflexivity.
  - rewrite Hr, (parts_delivers evs mr message fuel Hd Hlen), IH.
    rewrite inline_contents_app, attachment_parts_app, last_app_default.
    cbn [set_Body set_Attachments Body Attachments ID Subject Date Flags From
         To Size].
    rewrite <- app_assoc. reflexivity.
Qed.

Lemma literals_accumulate_witness :
  let later := {| Script.pending := [Script.inline "later";
                                     Script.attachment "c.bin" "CCC"];
                  Script.after := mail.EOF |} in
  let message := Script.entry 7 in
  let evss := [Script.pending Script.three_parts; Script.pending later] in
  GetEmailByID_literals 4 [Some Script.three_parts; Some later] message =
  Some (set_Attachments
          (set_Body message (last (inline_contents (List.concat evss)) (Body message)))
          (Attachments message ++ attachment_parts (List.concat evss))).
Proof.
  intros later message evss.
  apply (literals_accumulate 4 [Some Script.three_parts; Some later] evss message).
  repeat constructor.
  - exists Script.three_parts. cbn.
    repeat split; try discriminate. repeat constructor.
  - exists later. cbn.
    repeat split; try discriminate. repeat constructor.
Defined.

(** X21.  When the selection fails, [GetEmailByID] returns the error
    wrapped with the name of the folder it tried (["INBOX"] for an empty
    folder argument); the selection is its only library call and no fetch
    is made. *)
Theorem GetEmailByID_select_failure :
  forall {World Conn Literal Reader : Type}
         {IC : imap.Client World Conn Literal}
         {MD : mail.Decoder Literal Reader}
         (st : state World Conn) (cl : Conn) (id folder : string) (seqNum : Z)
         (err : error) (w' : World) (fuel : nat),
    client (self st) = Some cl ->
    ParseUint10 id 32 = Ok seqNum ->
    let name := if (folder =? "")%string then "INBOX" else folder in
    imap.Select cl name false (server st) = (Err err, w') ->
    GetEmailByID fuel id folder st =
    Some (Returns (Err (wrapError ("failed to select folder " ++ name) err)),
          {| self := self st; server := w';
             calls := calls st ++ [call_Select cl name false];
             stdout := stdout st ++
                       ["Selecting folder for email ID " ++ id ++ " : " ++ name] |}).
Proof.
  intros World Conn Literal Reader IC MD st cl id folder seqNum err w' fuel
         Hc Hp name Hsel.
  unfold GetEmailByID, Println, client_Select, call.
  rewrite Hc, Hp. fold name. cbn [server]. rewrite Hsel. reflexivity.
Qed.

Lemma GetEmailByID_select_failure_witness :
  let err := errorString "imap: no such mailbox" in
  let w := {| Script.login := None; Script.logout := None;
              Script.mailbox := Err err;
              Script.records := []; Script.fetched := None |} in
  GetEmailByID 0 "7" "" (Script.connected w) =
  Some (Returns (Err (wrapError "failed to select folder INBOX" err)),
        {| self := self (Script.connected w); server := w;
           calls := [call_Select 1 "INBOX" false];
           stdout := ["Selecting folder for email ID 7 : INBOX"] |}).
Proof.
  intros err w.
  apply (GetEmailByID_select_failure (Script.connected w) 1 "7" "" 7 err w 0);
    reflexivity.
Defined.

(** X22.  Only [Connect] and [Disconnect] write to the client, and only
    to its session reference: the listing, the range fetches and the
    single-message fetch return the client they were given, and [Connect]
    and [Disconnect] keep the configuration. *)
Theorem operations_keep_client :
  forall (a : arch) {World Conn Literal Reader : Type}
         {IC : imap.Client World Conn Literal}
         {MD : mail.Decoder Literal Reader}
         (st : state World Conn) (id folder : string) (page pageSize : Z)
         (fuel : nat),
    config (self (snd (Connect st))) = config (self st) /\
    config (self (snd (Disconnect st))) = config (self st) /\
    self (snd (GetFolders st)) = self st /\
    self (snd (GetInbox a page pageSize st)) = self st /\
    self (snd (GetFolderMessages a folder page pageSize st)) = self st /\
    match GetEmailByID fuel id folder st with
    | Some (_, st') => self st' = self st
    | None => True
    end.
Proof.
  intros a World Conn Literal Reader IC MD st id folder page pageSize fuel.
  repeat split.
  - unfold Connect, bind, get_self, client_Dial, client_DialTLS, client_StartTLS,
      client_Login, client_Logout, set_client, call, ret.
    destruct (Port (config (self st)) =? 1143).
    + destruct (imap.Dial _ (server st)) as [[cl | err] w]; cbn; [| reflexivity].
      destruct (imap.StartTLS _ _ _) as [[err |] w1]; cbn; [reflexivity |].
      destruct (imap.Login _ _ _ _) as [[err |] w2]; cbn; [| reflexivity].
      destruct (imap.Logout _ _) as [e w3]; reflexivity.
    + destruct (imap.DialTLS _ _ (server st)) as [[cl | err] w]; cbn;
        [| reflexivity].
      destruct (imap.Login _ _ _ _) as [[err |] w2]; cbn; [| reflexivity].
      destruct (imap.Logout _ _) as [e w3]; reflexivity.
  - unfold Disconnect, bind, get_self, client_Logout, set_client, call, ret.
    destruct (client (self st)) as [cl |]; [| reflexivity].
    destruct (imap.Logout _ _) as [[err |] w]; reflexivity.
  - unfold GetFolders, bind, get_self, client_List, call, ret.
    destruct (client (self st)) as [cl |]; [| reflexivity].
    destruct (imap.List _ _ _ _) as [[mailboxes [err |]] w]; reflexivity.
  - unfold GetInbox, bind, get_self, client_Select, client_Fetch, call, ret,
      Println.
    destruct (client (self st)) as [cl |]; [| reflexivity].
    destruct (imap.Select _ _ _ _) as [[mbox | e] w]; [| reflexivity].
    destruct (imap.Messages mbox =? 0); [reflexivity |].
    destruct (imap.Messages mbox <=? _); [reflexivity |].
    cbn [server]. destruct (imap.Fetch _ _ _ _) as [[msgs done] w''].
    destruct (GetInbox_records msgs []); [destruct done |]; reflexivity.
  - unfold GetFolderMessages, bind, get_self, client_Select, client_Fetch, call,
      ret, Println.
    destruct (client (self st)) as [cl |]; [| reflexivity].
    destruct (imap.Select _ _ _ _) as [[mbox | e] w]; [| reflexivity].
    destruct (imap.Messages mbox =? 0); [reflexivity |].
    destruct (imap.Messages mbox <=? _); [reflexivity |].
    cbn [server]. destruct (imap.Fetch _ _ _ _) as [[msgs done] w''].
    destruct (GetFolderMessages_records msgs []); [destruct done |]; reflexivity.
  - unfold GetEmailByID, Println, client_Select, client_Fetch, call.
    destruct (client (self st)) as [cl |]; [| reflexivity].
    destruct (ParseUint10 id 32) as [seqNum | e]; [| reflexivity].
    cbn [server].
    destruct (imap.Select _ _ _ _) as [[mbox | e] w]; [| reflexivity].
    cbn [server]. destruct (imap.Fetch _ _ _ _) as [[msgs done] w''].
    destruct (GetEmailByID_records fuel msgs None) as [[message | v] |];
      [| reflexivity | exact I].
    destruct done; [| destruct message]; reflexivity.
Qed.

(** X23.  The part loop has one way out: a walk that ends has seen the
    reader report the end, after outcomes that were all parts or errors
    other than the end, and it made one call of [NextPart] per outcome and
    one for the end. *)
Theorem part_loop_ends_only_at_EOF :
  forall {Literal Reader : Type} {MD : mail.Decoder Literal Reader}
         (fuel : nat) (mr : Reader) (message message' : Message),
    GetEmailByID_parts fuel mr message = Some message' ->
    exists evs, delivers mr evs /\ (List.length evs < fuel)%nat.
Proof.
  intros Literal Reader MD fuel.
  induction fuel as [| fuel IH]; intros mr message message' H;
    [discriminate H |].
  cbn [GetEmailByID_parts] in H.
  destruct (mail.NextPart mr) as [r mr'] eqn:E.
  destruct r as [| err | p].
  - exists []. cbn. rewrite E. split; [reflexivity | apply PeanoNat.Nat.lt_0_succ].
  - destruct (IH mr' message message' H) as (evs & Hd & Hlen).
    exists (mail.Failed err :: evs). cbn [delivers List.length]. rewrite E.
    split; [| now apply -> PeanoNat.Nat.succ_lt_mono].
    split; [discriminate | split; [reflexivity | exact Hd]].
  - destruct (IH mr' _ message' H) as (evs & Hd & Hlen).
    exists (mail.Next p :: evs). cbn [delivers List.length]. rewrite E.
    split; [| now apply -> PeanoNat.Nat.succ_lt_mono].
    split; [discriminate | split; [reflexivity | exact Hd]].
Qed.

Lemma part_loop_ends_only_at_EOF_witness :
  exists evs, delivers Script.three_parts evs /\ (List.length evs < 4)%nat.
Proof.
  apply (part_loop_ends_only_at_EOF 4 Script.three_parts
           (Script.entry 7)
           (set_Attachments
              (set_Body (Script.entry 7) "text")
              (attachment_parts (Script.pending Script.three_parts)))).
  reflexivity.
Defined.
